(** * Sound-Equalizer: the peaking-EQ filter chain and its utilities

    A shallow embedding of [python-equalizer/audio_processor.py] and of
    the preset logic of [python-equalizer/equalizer.py].

    Conventions of the embedding.
    - Python floats and NumPy float arrays are real numbers and lists of
      real numbers: arithmetic is exact and total (division is Rocq's
      total division), so "within floating tolerance" reads as equality
      and rounding ([astype(np.float32)]) is the identity on values.
    - An exception is a value: [Raise e]. A method of a mutable object
      takes the object and returns it next to its result, also when it
      raises, because a Python exception does not undo earlier mutation.
    - The three-element coefficient arrays [b] and [a] are triples, the
      two-element delay line [zi]/[zf] is a pair; [None] in
      [filter_states] is [None], a stored delay line [z] is [Some z].
    - NumPy and SciPy routines ([linspace], [lfilter], [lfilter_zi],
      [freqz], ...) are library code: they are given by their documented
      meaning.
    - Two paths of the program are not followed by the embedding. A
      sample rate of zero makes [get_filter_coefficients] raise
      [ZeroDivisionError], where the division of the reals is total.
      For an empty input SciPy's [lfilter] returns a delay line it has
      not written, where [lfilter] here returns the one it was given;
      so the delay lines [process_block] stores when it runs an Active
      band on an empty block are not those of the program. *)

From Stdlib Require Import Reals Lra Lia ZArith Ascii String.
From Stdlib.Strings Require Byte.
From stdpp Require Import base option list strings pretty gmap.

#[global] Instance R_eq_dec : EqDecision R := Req_dec_T.

Local Open Scope R_scope.

(** ** Exceptions *)

Inductive exn : Type :=
  | IndexError
  | ValueError
  | LinAlgError
  | TypeError.

Inductive result (A : Type) : Type :=
  | Ok (a : A)
  | Raise (e : exn).
Arguments Ok {A} a.
Arguments Raise {A} e.

#[global] Instance result_ret : MRet result := fun _ a => Ok a.
#[global] Instance result_bind : MBind result := fun _ _ f m =>
  match m with
  | Ok a => f a
  | Raise e => Raise e
  end.

Definition is_ok {A} (r : result A) : bool :=
  match r with Ok _ => true | Raise _ => false end.

(** [l[i]] on a Python list or a one-dimensional array, [i >= 0]. *)
Definition index {A} (l : list A) (i : nat) : result A :=
  match l !! i with
  | Some x => Ok x
  | None => Raise IndexError
  end.

(** ** EqualizerBand *)

Definition vec3 : Type := R * R * R.
Definition state : Type := R * R.

Record EqualizerBand : Type := mkBand {
  frequency : R;
  gain_db : R;
  q_factor : R
}.

(** The taps of the band, for a sample rate other than zero (at zero
    the division in [w0] raises [ZeroDivisionError] in Python). *)
Definition get_filter_coefficients (self : EqualizerBand) (sample_rate : R)
  : vec3 * vec3 :=
  let gain_linear := Rpower 10 (gain_db self / 20) in
  let w0 := 2 * PI * frequency self / sample_rate in
  let alpha := sin w0 / (2 * q_factor self) in
  let cos_w0 := cos w0 in
  let b0 := 1 + alpha * gain_linear in
  let b1 := -2 * cos_w0 in
  let b2 := 1 - alpha * gain_linear in
  let a0 := 1 + alpha / gain_linear in
  let a1 := -2 * cos_w0 in
  let a2 := 1 - alpha / gain_linear in
  ((b0 / a0, b1 / a0, b2 / a0), (1, a1 / a0, a2 / a0)).

(** The formula of the specification, section 4.1, written from its
    words: raw taps first, then the division by [a0raw]. *)
Definition spec_coefficients (f0 G Q fs : R) : vec3 * vec3 :=
  let gainLinear := Rpower 10 (G / 20) in
  let w0 := 2 * PI * f0 / fs in
  let alpha := sin w0 / (2 * Q) in
  let cosW0 := cos w0 in
  let b0raw := 1 + alpha * gainLinear in
  let b1raw := -2 * cosW0 in
  let b2raw := 1 - alpha * gainLinear in
  let a0raw := 1 + alpha / gainLinear in
  let a1raw := -2 * cosW0 in
  let a2raw := 1 - alpha / gainLinear in
  ((b0raw / a0raw, b1raw / a0raw, b2raw / a0raw),
   (1, a1raw / a0raw, a2raw / a0raw)).

(** The common cookbook peaking filter, which scales [alpha] by the
    square root of the linear gain: the form the code does not use. *)
Definition cookbook_coefficients (f0 G Q fs : R) : vec3 * vec3 :=
  let A := Rpower 10 (G / 40) in
  let w0 := 2 * PI * f0 / fs in
  let alpha := sin w0 / (2 * Q) in
  let a0raw := 1 + alpha / A in
  (((1 + alpha * A) / a0raw, -2 * cos w0 / a0raw, (1 - alpha * A) / a0raw),
   (1, -2 * cos w0 / a0raw, (1 - alpha / A) / a0raw)).

(** ** scipy.signal: the biquad in direct form II transposed *)

(** Both routines first divide every tap by [a[0]]. *)
Definition normalize_taps (b a : vec3) : vec3 * vec3 :=
  let '(b0, b1, b2) := b in
  let '(a0, a1, a2) := a in
  ((b0 / a0, b1 / a0, b2 / a0), (a0 / a0, a1 / a0, a2 / a0)).

(** One sample: [y = b0 x + z0], then the delay line moves up. *)
Definition lfilter_step (b a : vec3) (z : state) (x : R) : R * state :=
  let '(b0, b1, b2) := b in
  let '(_, a1, a2) := a in
  let '(z0, z1) := z in
  let y := b0 * x + z0 in
  (y, (b1 * x + z1 - a1 * y, b2 * x - a2 * y)).

Fixpoint lfilter_loop (b a : vec3) (x : list R) (z : state)
  : list R * state :=
  match x with
  | [] => ([], z)
  | xm :: xs =>
      let '(y, z') := lfilter_step b a z xm in
      let '(ys, zf) := lfilter_loop b a xs z' in
      (y :: ys, zf)
  end.

(** [signal.lfilter(b, a, x, zi=zi)]: the output and the final delay
    line. For an empty [x] the output is empty and the delay line
    returned here is [zi]; SciPy returns an array it has not written. *)
Definition lfilter (b a : vec3) (x : list R) (zi : state) : list R * state :=
  let '(b', a') := normalize_taps b a in
  lfilter_loop b' a' x zi.

(** [signal.lfilter_zi(b, a)]: the delay line of the step response's
    steady state, the solution [zi] of [(I - A^T) zi = B] where [A] is
    the companion matrix of [a] and [B = b[1:] - a[1:] * b[0]]. For three
    taps [I - A^T = [[1 + a1, -1], [a2, 1]]]; [numpy.linalg.solve] raises
    [LinAlgError] on a singular matrix. *)
Definition lfilter_zi (b a : vec3) : result state :=
  let '((b0, b1, b2), (_, a1, a2)) := normalize_taps b a in
  let B0 := b1 - a1 * b0 in
  let B1 := b2 - a2 * b0 in
  let det := (1 + a1) * 1 - (-1) * a2 in
  if decide (det = 0) then Raise LinAlgError
  else
    let z0 := (B0 + B1) / det in
    Ok (z0, B1 - a2 * z0).

(** ** AudioProcessor *)

Record AudioProcessor : Type := mkProcessor {
  sample_rate : R;
  bands : list EqualizerBand;
  filter_states : list (option state)
}.

(** [AudioProcessor.__init__] *)
Definition new_AudioProcessor (sample_rate : R) : AudioProcessor :=
  mkProcessor sample_rate [] [].

Definition add_band (self : AudioProcessor) (frequency gain_db q_factor : R)
  : AudioProcessor :=
  let band := mkBand frequency gain_db q_factor in
  mkProcessor (sample_rate self) (bands self ++ [band])
    (filter_states self ++ [None]).

Definition clear_bands (self : AudioProcessor) : AudioProcessor :=
  mkProcessor (sample_rate self) [] [].

Definition reset_states (self : AudioProcessor) : AudioProcessor :=
  mkProcessor (sample_rate self) (bands self)
    (replicate (length (bands self)) None).

(** The body of [for i, band in enumerate(self.bands)], from index [i]
    on: [states] is [self.filter_states], [processed] the running block. *)
Fixpoint process_bands (sample_rate : R) (i : nat) (bs : list EqualizerBand)
    (states : list (option state)) (processed : list R)
  : result (list R) * list (option state) :=
  match bs with
  | [] => (Ok processed, states)
  | band :: rest =>
      let '(b, a) := get_filter_coefficients band sample_rate in
      match index states i with
      | Raise e => (Raise e, states)
      | Ok None =>
          match zi ← lfilter_zi b a; x0 ← index processed 0%nat;
                mret (zi.1 * x0, zi.2 * x0) with
          | Raise e => (Raise e, states)
          | Ok zi =>
              let '(processed', zf) := lfilter b a processed zi in
              process_bands sample_rate (S i) rest
                (<[i := Some zf]> states) processed'
          end
      | Ok (Some zi) =>
          let '(processed', zf) := lfilter b a processed zi in
          process_bands sample_rate (S i) rest
            (<[i := Some zf]> states) processed'
      end
  end.

Definition process_block (self : AudioProcessor) (audio_data : list R)
  : result (list R) * AudioProcessor :=
  if decide (length (bands self) = 0%nat) then (Ok audio_data, self)
  else
    (* astype(np.float32): a fresh array with the same values *)
    let processed := audio_data in
    let '(r, states) :=
      process_bands (sample_rate self) 0 (bands self) (filter_states self)
        processed in
    (r, mkProcessor (sample_rate self) (bands self) states).

(** The two calls of a stream cut in two: [process_block] on the first
    sub-block, then on the second, on the same processor; the outputs are
    concatenated. *)
Definition process_split (self : AudioProcessor) (x1 x2 : list R)
  : result (list R) * AudioProcessor :=
  match process_block self x1 with
  | (Raise e, self1) => (Raise e, self1)
  | (Ok y1, self1) =>
      match process_block self1 x2 with
      | (Raise e, self2) => (Raise e, self2)
      | (Ok y2, self2) => (Ok (y1 ++ y2), self2)
      end
  end.

(** The loop read as a recursion over the band/state pairs: one band
    applied to a block ([band_step]), then the cascade ([chain_run]).
    [process_bands_chain_run] below relates it to [process_bands]. *)
Definition band_step (sample_rate : R) (band : EqualizerBand)
    (st : option state) (x : list R) : result (list R * state) :=
  let '(b, a) := get_filter_coefficients band sample_rate in
  match st with
  | None =>
      match zi ← lfilter_zi b a; x0 ← index x 0%nat;
            mret (zi.1 * x0, zi.2 * x0) with
      | Raise e => Raise e
      | Ok zi => Ok (lfilter b a x zi)
      end
  | Some zi => Ok (lfilter b a x zi)
  end.

Fixpoint chain_run (sample_rate : R) (bs : list EqualizerBand)
    (states : list (option state)) (x : list R)
  : result (list R) * list (option state) :=
  match bs, states with
  | [], _ => (Ok x, states)
  | _ :: _, [] => (Raise IndexError, [])
  | band :: rest, st :: states' =>
      match band_step sample_rate band st x with
      | Raise e => (Raise e, st :: states')
      | Ok (y, zf) =>
          let '(r, states'') := chain_run sample_rate rest states' y in
          (r, Some zf :: states'')
      end
  end.

(** A band inside the domain of the specification, section 4.1. *)
Definition valid_band (sample_rate : R) (band : EqualizerBand) : Prop :=
  0 < frequency band < sample_rate / 2 /\ 0 < q_factor band.

(** The chain of the specification's worked example: one band at 1 kHz,
    +6 dB, Q = 1, on a fresh processor at 44.1 kHz. *)
Definition example_chain : AudioProcessor :=
  add_band (new_AudioProcessor 44100) 1000 6 1.

(** The processor states a program can build through the public methods. *)
Inductive reachable : AudioProcessor -> Prop :=
  | reach_new sr : reachable (new_AudioProcessor sr)
  | reach_add_band p f g q : reachable p -> reachable (add_band p f g q)
  | reach_clear_bands p : reachable p -> reachable (clear_bands p)
  | reach_reset_states p : reachable p -> reachable (reset_states p)
  | reach_process_block p x : reachable p -> reachable (process_block p x).2.

(** ** Complex numbers, for the frequency response *)

Record complex : Type := mkC { Re : R; Im : R }.

Definition Cone : complex := mkC 1 0.
Definition Cadd (u v : complex) : complex := mkC (Re u + Re v) (Im u + Im v).
Definition Cscale (k : R) (u : complex) : complex := mkC (k * Re u) (k * Im u).
Definition Cmul (u v : complex) : complex :=
  mkC (Re u * Re v - Im u * Im v) (Re u * Im v + Im u * Re v).
Definition Cdiv (u v : complex) : complex :=
  let d := Re v * Re v + Im v * Im v in
  mkC ((Re u * Re v + Im u * Im v) / d) ((Im u * Re v - Re u * Im v) / d).
Definition Cabs (u : complex) : R := sqrt (Re u * Re u + Im u * Im u).

(** [numpy.angle]: the two-argument arctangent of [Im] and [Re]. *)
Definition arctan2 (y x : R) : R :=
  if Rlt_dec 0 x then atan (y / x)
  else if Rlt_dec x 0 then
    (if Rlt_dec y 0 then atan (y / x) - PI else atan (y / x) + PI)
  else if Rlt_dec 0 y then PI / 2
  else if Rlt_dec y 0 then - (PI / 2)
  else 0.
Definition Cangle (u : complex) : R := arctan2 (Im u) (Re u).

Definition log10 (x : R) : R := ln x / ln 10.

(** ** numpy: linspace and logspace *)

(** [numpy.linspace(start, stop, num)] with the end point included:
    [num] evenly spaced samples, the single sample [start] for
    [num = 1]; a negative [num] raises [ValueError]. *)
Definition linspace (start stop : R) (num : Z) : result (list R) :=
  if decide (num < 0)%Z then Raise ValueError
  else
    let n := Z.to_nat num in
    let step := (stop - start) / INR (n - 1) in
    Ok ((fun i => start + INR i * step) <$> seq 0 n).

Definition logspace (start stop : R) (num : Z) : result (list R) :=
  match linspace start stop num with
  | Raise e => Raise e
  | Ok samples => Ok (Rpower 10 <$> samples)
  end.

(** [signal.freqz(b, a, worN=frequencies, fs=fs)]: the transfer function
    [B(z^-1) / A(z^-1)] at [z^-1 = exp(-j w)], [w = 2 pi f / fs]. *)
Definition freqz (b a : vec3) (frequencies : list R) (fs : R)
  : list complex :=
  let '(b0, b1, b2) := b in
  let '(a0, a1, a2) := a in
  (fun f =>
     let w := 2 * PI * f / fs in
     let zm1 := mkC (cos w) (- sin w) in
     let poly c0 c1 c2 :=
       Cadd (mkC c0 0) (Cadd (Cscale c1 zm1) (Cscale c2 (Cmul zm1 zm1))) in
     Cdiv (poly b0 b1 b2) (poly a0 a1 a2)) <$> frequencies.

Definition get_frequency_response (self : AudioProcessor)
    (frequencies : option (list R))
  : result (list R * list R * list R) * AudioProcessor :=
  match
    match frequencies with
    | None => logspace 1 (log10 (sample_rate self / 2)) 1000
    | Some fr => Ok fr
    end
  with
  | Raise e => (Raise e, self)
  | Ok frequencies =>
      let total_response := replicate (length frequencies) Cone in
      let total_response :=
        foldl (fun total band =>
                 let '(b, a) := get_filter_coefficients band (sample_rate self) in
                 let h := freqz b a frequencies (sample_rate self) in
                 zip_with Cmul total h)
          total_response (bands self) in
      let magnitude_db := (fun u => 20 * log10 (Cabs u)) <$> total_response in
      let phase := Cangle <$> total_response in
      (Ok (frequencies, magnitude_db, phase), self)
  end.

(** ** normalize_audio *)

(** [numpy.max] of a one-dimensional array; an empty one raises. *)
Definition np_max (l : list R) : result R :=
  match l with
  | [] => Raise ValueError
  | x :: xs => Ok (foldl Rmax x xs)
  end.

Definition normalize_audio (audio_data : list R) (target_level : R)
  : result (list R) :=
  peak ← np_max (Rabs <$> audio_data);
  if decide (peak = 0) then Ok audio_data
  else
    let target_linear := Rpower 10 (target_level / 20) in
    let scale := target_linear / peak in
    Ok ((fun x => x * scale) <$> audio_data).

(** ** apply_fade *)

(** Arrays live in a store: [apply_fade] copies its argument and then
    multiplies slices of the copy in place. *)
Definition loc : Type := positive.
Abbreviation heap := (gmap loc (list R)).

(** [arr[start:stop] *= v] for [start <= stop <= len(arr)]: [v] has the
    length of the slice, or is a single element that is broadcast;
    anything else cannot be broadcast into the slice. *)
Definition imul_slice (arr : list R) (start stop : nat) (v : list R)
  : result (list R) :=
  let seg := take (stop - start)%nat (drop start arr) in
  if decide (length v = length seg) then
    Ok (take start arr ++ zip_with Rmult seg v ++ drop stop arr)
  else
    match v with
    | [k] => Ok (take start arr ++ ((fun x => x * k) <$> seg) ++ drop stop arr)
    | _ => Raise ValueError
    end.

(** The start of the slice [arr[-k:]]: [-0] is [0], the whole array. *)
Definition tail_start (len k : nat) : nat :=
  if decide (k = 0%nat) then 0%nat else (len - k)%nat.

(** [audio_data] names an array of the store; a name outside the store
    is not a Python value and is reported as [TypeError]. The store also
    keeps what an exception leaves behind: the copy, with whatever was
    already multiplied into it. *)
Definition apply_fade (h : heap) (audio_data : loc) (fade_samples : Z)
  : result loc * heap :=
  match h !! audio_data with
  | None => (Raise TypeError, h)
  | Some data =>
      let result := fresh (dom h) in
      let h := <[result := data]> h in
      let len := length data in
      match linspace 0 1 (Z.min fade_samples (Z.of_nat len)) with
      | Raise e => (Raise e, h)
      | Ok fade_in =>
          match imul_slice data 0 (Nat.min (length fade_in) len) fade_in with
          | Raise e => (Raise e, h)
          | Ok faded_in =>
              let h := <[result := faded_in]> h in
              match linspace 1 0 (Z.min fade_samples (Z.of_nat len)) with
              | Raise e => (Raise e, h)
              | Ok fade_out =>
                  match imul_slice faded_in
                          (tail_start len (length fade_out)) len fade_out with
                  | Raise e => (Raise e, h)
                  | Ok faded => (Ok result, <[result := faded]> h)
                  end
              end
          end
      end
  end.

(** The fade of the specification, section 4.5, written from its words:
    the first [min(fadeSamples, len)] samples times a ramp from 0 to 1,
    the last [min(fadeSamples, len)] times a ramp from 1 to 0, both
    factors applied where the two regions overlap. *)
Definition ramp (start stop : R) (m j : nat) : R :=
  start + INR j * ((stop - start) / INR (m - 1)).

Definition spec_fade (block : list R) (fadeSamples : nat) : list R :=
  let len := length block in
  let m := Nat.min fadeSamples len in
  imap (fun i x =>
          x * (if decide (i < m)%nat then ramp 0 1 m i else 1)
            * (if decide (len - m <= i)%nat then ramp 1 0 m (i - (len - m)) else 1))
    block.

(** ** SoundEqualizer: configuration and presets *)

Record BandConfig : Type := mkBandConfig {
  cfg_frequency : R;
  cfg_gain_db : R;
  cfg_q_factor : option R;
  cfg_description : option string
}.

Record Preset : Type := mkPreset {
  description : string;
  gains : list R
}.

(** The parsed configuration file: every top-level key may be absent.
    [presets] keeps the order of the file, as a Python dict does. *)
Record Config : Type := mkConfig {
  cfg_sample_rate : option R;
  cfg_buffer_size : option Z;
  cfg_bands : option (list BandConfig);
  cfg_presets : option (list (string * Preset))
}.

(** [eq_sample_rate] is [self.sample_rate]; [stdout] collects what the
    methods print, line by line. The audio stream is not part of the
    model. *)
Record SoundEqualizer : Type := mkEqualizer {
  config : Config;
  eq_sample_rate : R;
  buffer_size : Z;
  processor : AudioProcessor;
  stdout : list string
}.

(** [d[k]] and [d.get(k)] on a dict parsed from JSON, whose keys are
    distinct. *)
Definition dict_get {V} (d : list (string * V)) (k : string) : option V :=
  snd <$> find (fun kv => bool_decide (kv.1 = k)) d.

Definition nl : string := String "010"%char EmptyString.

Definition print (line : string) (self : SoundEqualizer) : SoundEqualizer :=
  mkEqualizer (config self) (eq_sample_rate self) (buffer_size self)
    (processor self) (stdout self ++ [line]).

Definition set_processor (p : AudioProcessor) (self : SoundEqualizer)
  : SoundEqualizer :=
  mkEqualizer (config self) (eq_sample_rate self) (buffer_size self) p
    (stdout self).

Definition _load_bands_from_config (self : SoundEqualizer) : SoundEqualizer :=
  let bands := default [] (cfg_bands (config self)) in
  set_processor
    (foldl (fun p band =>
              add_band p (cfg_frequency band) (cfg_gain_db band)
                (default 1 (cfg_q_factor band)))
       (processor self) bands)
    self.

(** [SoundEqualizer.__init__] after [_load_config] returned [config]. *)
Definition new_SoundEqualizer (config : Config) : SoundEqualizer :=
  let sample_rate := default 44100 (cfg_sample_rate config) in
  let buffer_size := default 1024%Z (cfg_buffer_size config) in
  let processor := new_AudioProcessor sample_rate in
  _load_bands_from_config
    (mkEqualizer config sample_rate buffer_size processor []).

Definition list_presets (self : SoundEqualizer) : SoundEqualizer :=
  let presets := default [] (cfg_presets (config self)) in
  match presets with
  | [] => print "No presets available." self
  | _ =>
      foldl (fun self kv =>
               print ("  - " +:+ kv.1 +:+ ": " +:+ description kv.2) self)
        (print (nl +:+ "Available presets:") self) presets
  end.

Definition apply_preset (self : SoundEqualizer) (preset_name : string)
  : bool * SoundEqualizer :=
  let presets := default [] (cfg_presets (config self)) in
  match dict_get presets preset_name with
  | None =>
      let self := print ("Error: Preset '" +:+ preset_name +:+ "' not found.") self in
      let self := list_presets self in
      (false, self)
  | Some preset =>
      let gains := gains preset in
      let bands := default [] (cfg_bands (config self)) in
      if decide (length gains ≠ length bands) then
        (false,
         print ("Error: Preset has " +:+ pretty (length gains) +:+ " gains but "
                +:+ pretty (length bands) +:+ " bands configured.") self)
      else
        let p := clear_bands (processor self) in
        let p :=
          foldl (fun p bg =>
                   add_band p (cfg_frequency bg.1) bg.2
                     (default 1 (cfg_q_factor bg.1)))
            p (zip bands gains) in
        let self := set_processor p self in
        (true,
         print ("Applied preset: " +:+ preset_name +:+ " - " +:+ description preset)
           self)
  end.

(** A configuration with two bands and a preset that carries one gain. *)
Definition example_config : Config :=
  mkConfig (Some 44100) (Some 1024%Z)
    (Some [mkBandConfig 100 0 (Some 1) (Some "Bass");
           mkBandConfig 1000 0 None None])
    (Some [("flat", mkPreset "Flat response" [0; 0]);
           ("short", mkPreset "One gain only" [3])]).

Definition example_equalizer : SoundEqualizer :=
  new_SoundEqualizer example_config.

(** ** SoundEqualizer: the stream callback *)

(** A float to an integer, towards zero: [astype(np.int16)] on a value
    inside the range, and Python's [int]. *)
Definition trunc (x : R) : Z :=
  if Rle_dec 0 x then Int_part x else (- Int_part (- x))%Z.

(** [numpy.clip(x, lo, hi)] on one element. *)
Definition np_clip (x lo hi : R) : R := Rmin hi (Rmax x lo).

(** 16-bit samples in a byte buffer, the low byte first (the native
    order of the machines the program runs on). *)
Definition int16_of_bytes (lo hi : Byte.byte) : Z :=
  let u := (Z.of_N (Byte.to_N lo) + 256 * Z.of_N (Byte.to_N hi))%Z in
  if decide (u < 32768)%Z then u else (u - 65536)%Z.

Definition byte_of_Z (v : Z) : Byte.byte :=
  default Byte.x00 (Byte.of_N (Z.to_N v)).

Definition bytes_of_int16 (v : Z) : list Byte.byte :=
  let u := (v mod 65536)%Z in
  [byte_of_Z (u mod 256); byte_of_Z (u / 256)].

(** [numpy.frombuffer(in_data, dtype=np.int16)]: a buffer of odd length
    is rejected. *)
Fixpoint frombuffer_int16 (in_data : list Byte.byte) : result (list Z) :=
  match in_data with
  | [] => Ok []
  | [_] => Raise ValueError
  | lo :: hi :: rest =>
      match frombuffer_int16 rest with
      | Raise e => Raise e
      | Ok samples => Ok (int16_of_bytes lo hi :: samples)
      end
  end.

(** [output.tobytes()] of an [int16] array. *)
Definition tobytes_int16 (output : list Z) : list Byte.byte :=
  output ≫= bytes_of_int16.

(** [pyaudio.paContinue]. *)
Definition paContinue : Z := 0.

(** The stream calls [audio_callback] once [start] has imported
    [pyaudio]; [frame_count] and [time_info] are not read. *)
Definition audio_callback (self : SoundEqualizer) (in_data : list Byte.byte)
    (frame_count : Z) (time_info : unit) (status : Z)
  : result (list Byte.byte * Z) * SoundEqualizer :=
  let self :=
    if decide (status = 0%Z) then self
    else print ("Status: " +:+ pretty status) self in
  match frombuffer_int16 in_data with
  | Raise e => (Raise e, self)
  | Ok audio_data =>
      let '(r, p) := process_block (processor self) (IZR <$> audio_data) in
      let self := set_processor p self in
      match r with
      | Raise e => (Raise e, self)
      | Ok processed =>
          match normalize_audio processed (-1) with
          | Raise e => (Raise e, self)
          | Ok processed =>
              let output :=
                (fun x => trunc (np_clip x (-32768) 32767)) <$> processed in
              (Ok (tobytes_int16 output, paContinue), self)
          end
      end
  end.

(** The grid [get_frequency_response] works on, and its result in
    terms of the product of the bands' responses. *)
Definition response_grid (sr : R) (frequencies : option (list R))
  : result (list R) :=
  match frequencies with
  | None => logspace 1 (log10 (sr / 2)) 1000
  | Some fr => Ok fr
  end.

Definition total_response (sr : R) (bs : list EqualizerBand)
    (freqs : list R) : list complex :=
  foldl (fun total band =>
           zip_with Cmul total
             (let '(b, a) := get_filter_coefficients band sr in
              freqz b a freqs sr))
    (replicate (length freqs) Cone) bs.

(** A chain with one band at 0 dB. *)
Definition flat_chain : AudioProcessor :=
  add_band (new_AudioProcessor 44100) 1000 0 1.

(** What [list_presets] prints. *)
Definition presets_listing (presets : list (string * Preset)) : list string :=
  match presets with
  | [] => ["No presets available."]
  | _ =>
      (nl +:+ "Available presets:")
      :: ((fun kv => "  - " +:+ kv.1 +:+ ": " +:+ description kv.2) <$> presets)
  end.

(** [SoundEqualizer._default_config]: what [_load_config] falls back to
    when the file is missing or cannot be parsed. *)
Definition _default_config : Config :=
  mkConfig (Some 44100) (Some 1024%Z) (Some []) None.

(** ** equalizer_gui.py: the band controls *)

(** An [EqualizerBandControl]: its index, its frequency and the value
    of its slider, a whole number of tenths of a dB that the slider
    keeps between its minimum -120 and its maximum 120. The text labels
    are not part of the model. *)
Record EqualizerBandControl : Type := mkControl {
  band_index : nat;
  control_frequency : R;
  slider : Z
}.

Definition new_EqualizerBandControl (band_index : nat) (frequency : R)
    (description : string) : EqualizerBandControl :=
  mkControl band_index frequency 0.

(** [QSlider.setValue]: the value is bound to the range of the slider. *)
Definition slider_setValue (value : Z) : Z := Z.max (-120) (Z.min 120 value).

(** The slider takes a C [int]; a Python integer outside its range does
    not reach the slider. *)
Definition c_int (v : Z) : option Z :=
  if decide (-2147483648 <= v <= 2147483647)%Z then Some v else None.

(** The methods of the window return [None] when an exception leaves
    them. [set_gain] blocks the signals of the slider, so no handler
    runs. *)
Definition set_gain (gain_db : R) (self : EqualizerBandControl)
  : option EqualizerBandControl :=
  value ← c_int (trunc (gain_db * 10));
  Some (mkControl (band_index self) (control_frequency self)
          (slider_setValue value)).

Definition get_gain (self : EqualizerBandControl) : R := IZR (slider self) / 10.

(** ** equalizer_gui.py: the main window *)

(** The window: [gui_bands] and [gui_presets] are [self.config['bands']]
    and [self.config['presets']], which [__init__] has read;
    [line_data] is what [freq_viz] plots, [status_message] the text of
    the status bar. Dialogs and files are not part of the model. *)
Record EqualizerGUI : Type := mkGUI {
  gui_bands : list BandConfig;
  gui_presets : list (string * Preset);
  equalizer : SoundEqualizer;
  enabled : bool;
  band_controls : list EqualizerBandControl;
  line_data : option (list R * list R);
  status_message : string
}.

Definition set_equalizer (e : SoundEqualizer) (self : EqualizerGUI)
  : EqualizerGUI :=
  mkGUI (gui_bands self) (gui_presets self) e (enabled self)
    (band_controls self) (line_data self) (status_message self).

Definition set_enabled (b : bool) (self : EqualizerGUI) : EqualizerGUI :=
  mkGUI (gui_bands self) (gui_presets self) (equalizer self) b
    (band_controls self) (line_data self) (status_message self).

Definition set_band_controls (cs : list EqualizerBandControl)
    (self : EqualizerGUI) : EqualizerGUI :=
  mkGUI (gui_bands self) (gui_presets self) (equalizer self) (enabled self)
    cs (line_data self) (status_message self).

Definition update_plot (frequencies magnitude_db : list R)
    (self : EqualizerGUI) : EqualizerGUI :=
  mkGUI (gui_bands self) (gui_presets self) (equalizer self) (enabled self)
    (band_controls self) (Some (frequencies, magnitude_db))
    (status_message self).

Definition _update_status_message (message : string) (self : EqualizerGUI)
  : EqualizerGUI :=
  mkGUI (gui_bands self) (gui_presets self) (equalizer self) (enabled self)
    (band_controls self) (line_data self) message.

(** The loop shared by [_apply_current_settings] and
    [_update_visualization]: one band per configured band that has a
    control, with the gain of its slider. *)
Definition add_current_bands (config_bands : list BandConfig)
    (controls : list EqualizerBandControl) (p : AudioProcessor)
  : AudioProcessor :=
  foldl (fun p ib =>
           match controls !! ib.1 with
           | Some control =>
               add_band p (cfg_frequency ib.2) (get_gain control)
                 (default 1 (cfg_q_factor ib.2))
           | None => p
           end)
    p (imap pair config_bands).

Definition _apply_current_settings (self : EqualizerGUI) : EqualizerGUI :=
  let p := clear_bands (processor (equalizer self)) in
  let p := add_current_bands (gui_bands self) (band_controls self) p in
  set_equalizer (set_processor p (equalizer self)) self.

Definition _update_visualization (self : EqualizerGUI) : option EqualizerGUI :=
  let temp_processor := new_AudioProcessor (eq_sample_rate (equalizer self)) in
  let temp_processor :=
    add_current_bands (gui_bands self) (band_controls self) temp_processor in
  match (get_frequency_response temp_processor None).1 with
  | Raise _ => None
  | Ok (freqs, mag_db, _) => Some (update_plot freqs mag_db self)
  end.

(** [Qt.Checked]. *)
Definition Qt_Checked : Z := 2.

(** The handler of the check box. Nothing in its [try] block raises in
    this model, so its [except] branch is left out. *)
Definition _on_enable_changed (self : EqualizerGUI) (state : Z)
  : option EqualizerGUI :=
  let self := set_enabled (bool_decide (state = Qt_Checked)) self in
  if enabled self then
    let self := _apply_current_settings self in
    Some (_update_status_message
            "Equalizer enabled (audio processing requires PyAudio)" self)
  else Some (_update_status_message "Equalizer disabled" self).

(** [bands[band_index].gain_db = gain_db]: the band object in the list
    of the processor is changed in place. The index comes from a
    control and is never negative. *)
Definition _on_band_changed (self : EqualizerGUI) (band_index : nat)
    (gain_db : R) : option EqualizerGUI :=
  let self :=
    if enabled self then
      let p := processor (equalizer self) in
      if decide (band_index < length (bands p))%nat then
        let bs :=
          alter (fun b => mkBand (frequency b) gain_db (q_factor b))
            band_index (bands p) in
        set_equalizer
          (set_processor (mkProcessor (sample_rate p) bs (filter_states p))
             (equalizer self))
          self
      else self
    else self in
  _update_visualization self.

(** [EqualizerBandControl._on_slider_changed], whose signal
    [value_changed] is connected to [_on_band_changed]. *)
Definition _on_slider_changed (self : EqualizerGUI)
    (control : EqualizerBandControl) (value : Z) : option EqualizerGUI :=
  let gain_db := IZR value / 10 in
  _on_band_changed self (band_index control) gain_db.

(** The user moves the slider of control [i]: the slider binds the value
    to its range and, when the value changes, emits [valueChanged],
    which runs [_on_slider_changed]. *)
Definition slider_moved (self : EqualizerGUI) (i : nat) (value : Z)
  : option EqualizerGUI :=
  match band_controls self !! i with
  | None => Some self
  | Some control =>
      let value := slider_setValue value in
      if decide (value = slider control) then Some self
      else
        let control :=
          mkControl (band_index control) (control_frequency control) value in
        let self :=
          set_band_controls (<[i := control]> (band_controls self)) self in
        _on_slider_changed self control value
  end.

(** [preset_combo.itemData(index)]: item 0 carries [None], the items
    after it the preset names in the order of the configuration. *)
Definition itemData (self : EqualizerGUI) (index : Z) : option string :=
  if decide (1 <= index)%Z
  then fst <$> gui_presets self !! Z.to_nat (index - 1)
  else None.

(** [for i, gain in enumerate(gains): if i < len(self.band_controls):
    self.band_controls[i].set_gain(gain)], from index [i] on. *)
Fixpoint set_gains (i : nat) (gains : list R)
    (controls : list EqualizerBandControl)
  : option (list EqualizerBandControl) :=
  match gains with
  | [] => Some controls
  | gain :: rest =>
      match controls !! i with
      | Some control =>
          control ← set_gain gain control;
          set_gains (S i) rest (<[i := control]> controls)
      | None => set_gains (S i) rest controls
      end
  end.

Definition _on_preset_changed (self : EqualizerGUI) (index : Z)
  : option EqualizerGUI :=
  match itemData self index with
  | None => Some self
  | Some preset_name =>
      preset ← dict_get (gui_presets self) preset_name;
      controls ← set_gains 0 (gains preset) (band_controls self);
      let self := set_band_controls controls self in
      let self := if enabled self then _apply_current_settings self else self in
      self ← _update_visualization self;
      Some (_update_status_message ("Applied preset: " +:+ preset_name) self)
  end.

Definition _reset_all_bands (self : EqualizerGUI) : option EqualizerGUI :=
  controls ← mapM (set_gain 0) (band_controls self);
  let self := set_band_controls controls self in
  let self := if enabled self then _apply_current_settings self else self in
  self ← _update_visualization self;
  Some (_update_status_message "All bands reset to 0 dB" self).

(** [EqualizerGUI.__init__] on the parsed configuration file, which the
    window and its [SoundEqualizer] both read: the window needs the keys
    [presets] and [bands] and a description for every band. *)
Definition new_EqualizerGUI (config : Config) : option EqualizerGUI :=
  let equalizer := new_SoundEqualizer config in
  presets ← cfg_presets config;
  config_bands ← cfg_bands config;
  controls ←
    mapM (fun ib : nat * BandConfig =>
            description ← cfg_description ib.2;
            Some (new_EqualizerBandControl ib.1 (cfg_frequency ib.2)
                    description))
      (imap pair config_bands);
  _update_visualization
    (mkGUI config_bands presets equalizer false controls None
       "Equalizer initialized. Use controls to adjust settings.").

(** What the user and the timer do to the window. *)
Inductive gui_event : Type :=
  | EnableChanged (state : Z)
  | SliderMoved (i : nat) (value : Z)
  | PresetChanged (index : Z)
  | ResetAll
  | TimerTick.

Definition gui_step (self : EqualizerGUI) (ev : gui_event)
  : option EqualizerGUI :=
  match ev with
  | EnableChanged state => _on_enable_changed self state
  | SliderMoved i value => slider_moved self i value
  | PresetChanged index => _on_preset_changed self index
  | ResetAll => _reset_all_bands self
  | TimerTick => _update_visualization self
  end.

Fixpoint gui_run (self : EqualizerGUI) (evs : list gui_event)
  : option EqualizerGUI :=
  match evs with
  | [] => Some self
  | ev :: evs => self ← gui_step self ev; gui_run self evs
  end.

(** The chain the sliders stand for. *)
Definition settings_bands (config_bands : list BandConfig)
    (controls : list EqualizerBandControl) : list EqualizerBand :=
  zip_with (fun b c => mkBand (cfg_frequency b) (get_gain c)
                         (default 1 (cfg_q_factor b)))
    config_bands controls.

(** The processor the sliders stand for: a band per configured band
    with a control, every band Uninitialized. *)
Definition settings_processor (sr : R) (config_bands : list BandConfig)
    (controls : list EqualizerBandControl) : AudioProcessor :=
  mkProcessor sr (settings_bands config_bands controls)
    (replicate (length (settings_bands config_bands controls)) None).

(** What holds of the window between two events: there is a control
    per configured band, each knows its index and keeps its slider in
    range, and while the equalizer is enabled its processor is the one
    the sliders stand for. *)
Definition gui_sync (self : EqualizerGUI) : Prop :=
  length (band_controls self) = length (gui_bands self) /\
  (forall i c, band_controls self !! i = Some c ->
               band_index c = i /\ (-120 <= slider c <= 120)%Z) /\
  sample_rate (processor (equalizer self)) = eq_sample_rate (equalizer self) /\
  (enabled self = true ->
   processor (equalizer self)
   = settings_processor (eq_sample_rate (equalizer self))
       (gui_bands self) (band_controls self)).

(** The curve on display is the frequency response of the chain the
    sliders stand for. *)
Definition gui_plot (self : EqualizerGUI) : Prop :=
  exists freqs mag_db phase,
    (get_frequency_response
       (settings_processor (eq_sample_rate (equalizer self))
          (gui_bands self) (band_controls self)) None).1
    = Ok (freqs, mag_db, phase) /\
    line_data self = Some (freqs, mag_db).

Definition gui_inv (self : EqualizerGUI) : Prop :=
  gui_sync self /\ gui_plot self.

(** A gain the slider can be given. *)
Definition gain_fits (gain_db : R) : Prop :=
  -2147483648 <= gain_db * 10 <= 2147483647.

(** A configuration the window accepts. *)
Definition gui_config : Config :=
  mkConfig (Some 44100) (Some 1024%Z)
    (Some [mkBandConfig 100 0 (Some 1) (Some "Bass");
           mkBandConfig 1000 0 None (Some "Mid")])
    (Some [("flat", mkPreset "Flat response" [0; 0]);
           ("loud", mkPreset "Beyond the sliders" [20; -3.57; 1])]).

(** * Properties *)

Opaque get_filter_coefficients lfilter_zi.

(** ** The result monad and small list facts *)

Lemma index_Ok {A} (l : list A) i x : index l i = Ok x <-> l !! i = Some x.
Proof. unfold index. destruct (l !! i); split; congruence. Qed.

Lemma index_head_app {A} (l1 l2 : list A) :
  l1 ≠ [] -> index (l1 ++ l2) 0 = index l1 0.
Proof. destruct l1; [done | reflexivity]. Qed.

Lemma index_head_ok {A} (l : list A) : l ≠ [] -> exists x, index l 0 = Ok x.
Proof. destruct l; [done | eauto]. Qed.

(** ** lfilter *)

Transparent lfilter.

Lemma lfilter_loop_length b a x z : length (lfilter_loop b a x z).1 = length x.
Proof.
  revert z. induction x as [|xm xs IH]; intros z; simpl; [done|].
  destruct (lfilter_step b a z xm) as [y z'].
  specialize (IH z'). destruct (lfilter_loop b a xs z') as [ys zf].
  simpl in *. by rewrite IH.
Qed.

Lemma lfilter_length b a x z : length (lfilter b a x z).1 = length x.
Proof.
  unfold lfilter. destruct (normalize_taps b a) as [b' a'].
  apply lfilter_loop_length.
Qed.

(** Filtering a concatenation is filtering the first part and carrying
    the delay line into the second. *)
Lemma lfilter_loop_app b a x1 x2 z :
  lfilter_loop b a (x1 ++ x2) z =
  let '(y1, z1) := lfilter_loop b a x1 z in
  let '(y2, z2) := lfilter_loop b a x2 z1 in
  (y1 ++ y2, z2).
Proof.
  revert z. induction x1 as [|xm xs IH]; intros z; simpl.
  - by destruct (lfilter_loop b a x2 z).
  - destruct (lfilter_step b a z xm) as [y z'].
    rewrite IH. destruct (lfilter_loop b a xs z') as [ys z1].
    by destruct (lfilter_loop b a x2 z1).
Qed.

Lemma lfilter_app b a x1 x2 z :
  lfilter b a (x1 ++ x2) z =
  let '(y1, z1) := lfilter b a x1 z in
  let '(y2, z2) := lfilter b a x2 z1 in
  (y1 ++ y2, z2).
Proof.
  unfold lfilter. destruct (normalize_taps b a) as [b' a'].
  apply lfilter_loop_app.
Qed.

Lemma lfilter_nil b a z : lfilter b a [] z = ([], z).
Proof. unfold lfilter. by destruct (normalize_taps b a). Qed.

Lemma lfilter_nonempty b a x z : x ≠ [] -> (lfilter b a x z).1 ≠ [].
Proof.
  intros Hx Hy. apply Hx, length_zero_iff_nil.
  by rewrite <- (lfilter_length b a x z), Hy.
Qed.

Opaque lfilter.

(** ** The loop and its recursive reading *)

Lemma band_step_length sr band st x y zf :
  band_step sr band st x = Ok (y, zf) -> length y = length x.
Proof.
  unfold band_step. destruct (get_filter_coefficients band sr) as [b a].
  destruct st as [zi|].
  - intros [= H]. by rewrite <- (lfilter_length b a x zi), H.
  - destruct (_ ≫= _) as [zi|e]; [|done].
    intros [= H]. by rewrite <- (lfilter_length b a x zi), H.
Qed.

Lemma process_bands_chain_run sr bs : forall i pre states x,
  length pre = i ->
  process_bands sr i bs (pre ++ states) x =
  let '(r, states') := chain_run sr bs states x in (r, pre ++ states').
Proof.
  induction bs as [|band rest IH]; intros i pre states x Hi; simpl; [done|].
  unfold band_step.
  destruct (get_filter_coefficients band sr) as [b a].
  unfold index at 1. rewrite lookup_app_r by lia.
  replace (i - length pre)%nat with 0%nat by lia.
  destruct states as [|st states']; simpl; [by rewrite app_nil_r|].
  assert (Hins : forall zf, <[i := Some zf]> (pre ++ st :: states')
                            = (pre ++ [Some zf]) ++ states').
  { intros zf. rewrite insert_app_r_alt by lia.
    replace (i - length pre)%nat with 0%nat by lia.
    by rewrite <- app_assoc. }
  assert (Hlen : forall zf : state, length (pre ++ [Some zf]) = S i).
  { intros zf. rewrite length_app. simpl. lia. }
  destruct st as [zi|].
  - destruct (lfilter b a x zi) as [y zf].
    rewrite Hins, (IH (S i) _ states' y (Hlen zf)).
    destruct (chain_run sr rest states' y) as [r states''].
    by rewrite <- app_assoc.
  - destruct (_ ≫= _) as [zi|e]; [|done].
    destruct (lfilter b a x zi) as [y zf].
    rewrite Hins, (IH (S i) _ states' y (Hlen zf)).
    destruct (chain_run sr rest states' y) as [r states''].
    by rewrite <- app_assoc.
Qed.

Lemma process_block_chain_run p x :
  process_block p x =
  if decide (length (bands p) = 0%nat) then (Ok x, p)
  else
    let '(r, states) := chain_run (sample_rate p) (bands p) (filter_states p) x in
    (r, mkProcessor (sample_rate p) (bands p) states).
Proof.
  unfold process_block. case_decide; [done|].
  rewrite (process_bands_chain_run _ _ 0%nat [] (filter_states p) x eq_refl).
  by destruct (chain_run _ _ _ _).
Qed.

Lemma chain_run_length_states sr bs : forall states x,
  length (chain_run sr bs states x).2 = length states.
Proof.
  induction bs as [|band rest IH]; intros states x; simpl; [done|].
  destruct states as [|st states']; [done|].
  destruct (band_step sr band st x) as [[y zf]|e]; [|done].
  specialize (IH states' y).
  destruct (chain_run sr rest states' y) as [r states'']. simpl in *.
  by rewrite IH.
Qed.

Lemma chain_run_length_out sr bs : forall states x y states',
  chain_run sr bs states x = (Ok y, states') -> length y = length x.
Proof.
  induction bs as [|band rest IH]; intros states x y states'; simpl.
  - by intros [= <- _].
  - destruct states as [|st sts]; [done|].
    destruct (band_step sr band st x) as [[y1 zf]|e] eqn:Hstep; [|done].
    destruct (chain_run sr rest sts y1) as [r sts'] eqn:Hrun.
    intros [= -> <-]. apply IH in Hrun. apply band_step_length in Hstep.
    congruence.
Qed.

(** One band over a block cut in two: the second part starts from the
    delay line the first part left. *)
Lemma band_step_app sr band st x1 x2 :
  x1 ≠ [] \/ is_Some st ->
  match band_step sr band st x1 with
  | Raise e => band_step sr band st (x1 ++ x2) = Raise e
  | Ok (y1, z1) =>
      exists y2 z2,
        band_step sr band (Some z1) x2 = Ok (y2, z2) /\
        band_step sr band st (x1 ++ x2) = Ok (y1 ++ y2, z2)
  end.
Proof.
  intros Hne. unfold band_step.
  destruct (get_filter_coefficients band sr) as [b a].
  destruct st as [zi|].
  - pose proof (lfilter_app b a x1 x2 zi) as Happ.
    destruct (lfilter b a x1 zi) as [y1 z1].
    destruct (lfilter b a x2 z1) as [y2 z2].
    exists y2, z2. by rewrite Happ.
  - destruct Hne as [Hne | [? [=]]].
    rewrite (index_head_app x1 x2 Hne).
    destruct (index_head_ok x1 Hne) as [x0 ->].
    destruct (lfilter_zi b a) as [[z0 z1]|e]; simpl; [|done].
    pose proof (lfilter_app b a x1 x2 (z0 * x0, z1 * x0)) as Happ.
    destruct (lfilter b a x1 _) as [y1 zf1].
    destruct (lfilter b a x2 zf1) as [y2 zf2].
    exists y2, zf2. by rewrite Happ.
Qed.

Lemma band_step_nonempty sr band st x y zf :
  band_step sr band st x = Ok (y, zf) -> x ≠ [] -> y ≠ [].
Proof.
  intros H Hx Hy. apply band_step_length in H.
  subst y. destruct x; [done | discriminate].
Qed.

(** The cascade over a block cut in two. *)
Lemma chain_run_app sr bs : forall states x1 x2,
  x1 ≠ [] \/ Forall is_Some states ->
  match chain_run sr bs states x1 with
  | (Raise e, _) => (chain_run sr bs states (x1 ++ x2)).1 = Raise e
  | (Ok y1, states1) =>
      exists y2 states2,
        chain_run sr bs states1 x2 = (Ok y2, states2) /\
        chain_run sr bs states (x1 ++ x2) = (Ok (y1 ++ y2), states2)
  end.
Proof.
  induction bs as [|band rest IH]; intros states x1 x2 Hne; simpl.
  { by exists x2, states. }
  destruct states as [|st sts]; [done|].
  assert (Hst : x1 ≠ [] \/ is_Some st).
  { destruct Hne as [?|H]; [by left | right; by inversion H]. }
  pose proof (band_step_app sr band st x1 x2 Hst) as Hstep.
  destruct (band_step sr band st x1) as [[y1 z1]|e] eqn:H1.
  2: { simpl. by rewrite Hstep. }
  destruct Hstep as (y2 & z2 & H2 & H12).
  assert (Hrest : y1 ≠ [] \/ Forall is_Some sts).
  { destruct Hne as [?|H]; [left | right; by inversion H].
    by eapply band_step_nonempty. }
  specialize (IH sts y1 y2 Hrest). rewrite H12.
  destruct (chain_run sr rest sts y1) as [[w1|e] sts1].
  2: { destruct (chain_run sr rest sts (y1 ++ y2)); simpl in *. congruence. }
  destruct IH as (w2 & sts2 & Hw2 & Hw12).
  simpl. rewrite H2, Hw2, Hw12. by exists w2, (Some z2 :: sts2).
Qed.

(** A band appended to the cascade runs after the old ones, which run as
    before. *)
Lemma chain_run_snoc sr bs : forall states x nb st,
  length bs = length states ->
  chain_run sr (bs ++ [nb]) (states ++ [st]) x =
  match chain_run sr bs states x with
  | (Raise e, states') => (Raise e, states' ++ [st])
  | (Ok y, states') =>
      match band_step sr nb st y with
      | Raise e => (Raise e, states' ++ [st])
      | Ok (y', zf) => (Ok y', states' ++ [Some zf])
      end
  end.
Proof.
  induction bs as [|band rest IH]; intros states x nb st Hlen;
    destruct states as [|s sts]; try discriminate; simpl.
  - by destruct (band_step sr nb st x) as [[y zf]|e].
  - destruct (band_step sr band s x) as [[y zf]|e]; [|done].
    rewrite IH by (simpl in Hlen; lia).
    destruct (chain_run sr rest sts y) as [[w|e] sts']; [|done].
    by destruct (band_step sr nb st w) as [[y' zf']|e].
Qed.

(** With every band Active the cascade accepts the empty block and
    leaves every delay line as it was. *)
Lemma chain_run_nil_active sr bs : forall states,
  length bs = length states -> Forall is_Some states ->
  chain_run sr bs states [] = (Ok [], states).
Proof.
  induction bs as [|band rest IH]; intros states Hlen Hact;
    destruct states as [|st sts]; try discriminate; simpl; [done|].
  inversion Hact as [|? ? [zi ->] Hsts]; subst.
  unfold band_step. destruct (get_filter_coefficients band sr) as [b a].
  rewrite lfilter_nil, IH; [done | simpl in Hlen; lia | done].
Qed.

(** With a band Uninitialized the cascade raises on the empty block. *)
Lemma chain_run_nil_uninitialized sr bs : forall states,
  length bs = length states -> None ∈ states ->
  is_ok (chain_run sr bs states []).1 = false.
Proof.
  induction bs as [|band rest IH]; intros states Hlen Hin;
    destruct states as [|st sts]; try discriminate; simpl.
  { by apply elem_of_nil in Hin. }
  unfold band_step. destruct (get_filter_coefficients band sr) as [b a].
  destruct st as [zi|].
  - rewrite lfilter_nil.
    apply elem_of_cons in Hin as [[=]|Hin].
    specialize (IH sts ltac:(simpl in Hlen; lia) Hin).
    by destruct (chain_run sr rest sts []).
  - by destruct (lfilter_zi b a) as [[z0 z1]|e].
Qed.

(** ** The processor's methods *)

Lemma add_band_bands p f g q :
  bands (add_band p f g q) = bands p ++ [mkBand f g q].
Proof. reflexivity. Qed.

Lemma add_band_filter_states p f g q :
  filter_states (add_band p f g q) = filter_states p ++ [None].
Proof. reflexivity. Qed.

Lemma clear_bands_empty p :
  bands (clear_bands p) = [] /\ filter_states (clear_bands p) = [].
Proof. done. Qed.

Lemma reset_states_spec p :
  bands (reset_states p) = bands p /\
  filter_states (reset_states p) = replicate (length (bands p)) None.
Proof. done. Qed.

Lemma process_block_frame p x :
  sample_rate (process_block p x).2 = sample_rate p /\
  bands (process_block p x).2 = bands p /\
  length (filter_states (process_block p x).2) = length (filter_states p).
Proof.
  rewrite process_block_chain_run. case_decide; [done|].
  pose proof (chain_run_length_states (sample_rate p) (bands p)
                (filter_states p) x) as Hlen.
  by destruct (chain_run _ _ _ _).
Qed.

(** ** The coefficients of a band inside the domain *)

Transparent get_filter_coefficients lfilter_zi.

Section ValidBand.
Variables (sr : R) (band : EqualizerBand).
Hypothesis Hsr : 0 < sr.
Hypothesis Hband : valid_band sr band.

Let w0 := 2 * PI * frequency band / sr.
Let gain_linear := Rpower 10 (gain_db band / 20).
Let alpha := sin w0 / (2 * q_factor band).

Lemma valid_w0 : 0 < w0 < PI.
Proof.
  destruct Hband as [[Hf0 Hf1] _]. pose proof PI_RGT_0 as Hpi. subst w0.
  split.
  - apply Rdiv_lt_0_compat; [nra | done].
  - apply (Rmult_lt_reg_r sr); [done|].
    unfold Rdiv. rewrite Rmult_assoc, Rinv_l by lra. nra.
Qed.

Lemma valid_gain_linear : 0 < gain_linear.
Proof. apply exp_pos. Qed.

Lemma valid_alpha : 0 < alpha.
Proof.
  destruct Hband as [_ Hq]. destruct valid_w0 as [H0 H1]. subst alpha.
  apply Rdiv_lt_0_compat; [by apply sin_gt_0 | lra].
Qed.

Lemma valid_a0 : 1 < 1 + alpha / gain_linear.
Proof.
  pose proof (Rdiv_lt_0_compat _ _ valid_alpha valid_gain_linear). lra.
Qed.

Lemma valid_cos : cos w0 < 1.
Proof.
  destruct valid_w0 as [H0 H1]. pose proof PI_RGT_0.
  rewrite <- cos_0. apply cos_decreasing_1; lra.
Qed.

(** The matrix [lfilter_zi] inverts is regular: its determinant is
    [(2 - 2 cos w0) / a0raw]. *)
Lemma lfilter_zi_valid :
  exists zi, (let '(b, a) := get_filter_coefficients band sr in
              lfilter_zi b a) = Ok zi.
Proof.
  unfold get_filter_coefficients, lfilter_zi, normalize_taps.
  fold w0. fold gain_linear. fold alpha.
  pose proof valid_a0 as Ha0. pose proof valid_cos as Hcos.
  set (a0 := 1 + alpha / gain_linear) in *.
  case_decide as Hdet; [exfalso | eauto].
  assert (Hag : alpha / gain_linear = a0 - 1) by (subst a0; ring).
  rewrite Hag in Hdet. clearbody a0.
  match type of Hdet with
  | ?l = 0 => assert (Heq : l = (2 - 2 * cos w0) / a0) by (field; lra)
  end.
  rewrite Heq in Hdet.
  assert (0 < (2 - 2 * cos w0) / a0) by (apply Rdiv_lt_0_compat; lra).
  lra.
Qed.

Lemma band_step_valid st x :
  x ≠ [] \/ is_Some st ->
  exists y zf, band_step sr band st x = Ok (y, zf).
Proof.
  intros Hne. unfold band_step. destruct lfilter_zi_valid as [zi Hzi].
  destruct (get_filter_coefficients band sr) as [b a].
  destruct st as [z|].
  - destruct (lfilter b a x z) as [y zf]. eauto.
  - destruct Hne as [Hne | [? [=]]].
    rewrite Hzi. destruct (index_head_ok x Hne) as [x0 ->]. simpl.
    destruct (lfilter b a x _) as [y zf]. eauto.
Qed.
End ValidBand.

Lemma chain_run_valid sr bs : forall states x,
  0 < sr -> Forall (valid_band sr) bs -> length bs = length states ->
  x ≠ [] \/ Forall is_Some states ->
  exists y states', chain_run sr bs states x = (Ok y, states').
Proof.
  induction bs as [|band rest IH]; intros states x Hsr Hval Hlen Hne;
    destruct states as [|st sts]; try discriminate; simpl; eauto.
  inversion Hval as [|? ? Hb Hrest]; subst.
  assert (Hst : x ≠ [] \/ is_Some st).
  { destruct Hne as [?|H]; [by left | right; by inversion H]. }
  destruct (band_step_valid sr band Hsr Hb st x Hst) as (y & zf & Hstep).
  rewrite Hstep.
  destruct (IH sts y Hsr Hrest) as (w & sts' & Hw).
  { simpl in Hlen. lia. }
  { destruct Hne as [?|H]; [left | right; by inversion H].
    by eapply band_step_nonempty. }
  rewrite Hw. eauto.
Qed.

(** On a chain of valid bands, aligned with its states, a non-empty block
    is always processed, and the output has the length of the input. *)
Lemma process_block_returns p x :
  0 < sample_rate p -> Forall (valid_band (sample_rate p)) (bands p) ->
  length (bands p) = length (filter_states p) ->
  x ≠ [] \/ Forall is_Some (filter_states p) ->
  exists y p', process_block p x = (Ok y, p') /\ length y = length x.
Proof.
  intros Hsr Hval Hlen Hne. rewrite process_block_chain_run.
  case_decide; [eauto|].
  destruct (chain_run_valid _ _ _ x Hsr Hval Hlen Hne) as (y & sts & Hrun).
  rewrite Hrun. eexists _, _. split; [done|].
  by eapply chain_run_length_out.
Qed.

Lemma example_chain_valid :
  0 < sample_rate example_chain /\
  Forall (valid_band (sample_rate example_chain)) (bands example_chain) /\
  length (bands example_chain) = length (filter_states example_chain).
Proof.
  simpl. split; [lra|]. split; [|done].
  repeat constructor; simpl; lra.
Qed.

Opaque get_filter_coefficients lfilter_zi.

(** ** Chain alignment *)

Lemma reachable_aligned p :
  reachable p -> length (bands p) = length (filter_states p).
Proof.
  induction 1 as [sr | p f g q _ IH | p _ _ | p _ _ | p x _ IH].
  - reflexivity.
  - rewrite add_band_bands, add_band_filter_states, !length_app, IH. done.
  - destruct (clear_bands_empty p) as [-> ->]. done.
  - destruct (reset_states_spec p) as [-> ->]. by rewrite length_replicate.
  - destruct (process_block_frame p x) as (_ & -> & ->). exact IH.
Qed.

(** C8. In every processor state that construction followed by any
    sequence of [add_band], [clear_bands], [reset_states] and
    [process_block] calls (also calls that raise) can produce, the band
    list and the state list have the same length; from such a state
    [add_band] appends one band and one [None] state, [clear_bands]
    empties both lists, [reset_states] keeps the bands and stores one
    [None] per band, and [process_block] keeps the bands and the number
    of states. *)
Theorem alignment_invariant p :
  reachable p ->
  length (bands p) = length (filter_states p) /\
  (forall f g q,
     bands (add_band p f g q) = bands p ++ [mkBand f g q] /\
     filter_states (add_band p f g q) = filter_states p ++ [None] /\
     length (bands (add_band p f g q))
     = length (filter_states (add_band p f g q))) /\
  (bands (clear_bands p) = [] /\ filter_states (clear_bands p) = []) /\
  (bands (reset_states p) = bands p /\
   filter_states (reset_states p) = replicate (length (bands p)) None /\
   length (bands (reset_states p)) = length (filter_states (reset_states p))) /\
  (forall x,
     bands (process_block p x).2 = bands p /\
     length (filter_states (process_block p x).2) = length (filter_states p) /\
     length (bands (process_block p x).2)
     = length (filter_states (process_block p x).2)).
Proof.
  intros Hp. split; [by apply reachable_aligned|].
  split; [|split; [done|split]].
  - intros f g q. split; [done|]. split; [done|].
    apply reachable_aligned. by constructor.
  - split; [done|]. split; [done|]. apply reachable_aligned. by constructor.
  - intros x. destruct (process_block_frame p x) as (_ & Hb & Hs).
    split; [done|]. split; [done|]. apply reachable_aligned. by constructor.
Qed.

Lemma alignment_invariant_witness :
  reachable (process_block (reset_states example_chain) [1; 2]).2 /\
  length (bands (process_block (reset_states example_chain) [1; 2]).2) =
  length (filter_states (process_block (reset_states example_chain) [1; 2]).2).
Proof.
  assert (H : reachable (process_block (reset_states example_chain) [1; 2]).2)
    by repeat constructor.
  split; [exact H | exact (proj1 (alignment_invariant _ H))].
Defined.

(** ** Adding a band *)

(** C10. [add_band] only appends: the sample rate, every band already
    present and every stored filter state keep their position and value
    (an Active state keeps its delay line), the new band comes last with
    an Uninitialized state; and on an aligned chain the next
    [process_block] of a block of samples leaves in the old bands'
    states exactly what it would have left without the new band. *)
Theorem add_band_appends p f g q :
  sample_rate (add_band p f g q) = sample_rate p /\
  bands (add_band p f g q) = bands p ++ [mkBand f g q] /\
  filter_states (add_band p f g q) = filter_states p ++ [None] /\
  (forall i band, bands p !! i = Some band ->
                  bands (add_band p f g q) !! i = Some band) /\
  (forall i st, filter_states p !! i = Some st ->
                filter_states (add_band p f g q) !! i = Some st) /\
  (length (bands p) = length (filter_states p) ->
   forall x, x ≠ [] ->
     take (length (bands p))
       (filter_states (process_block (add_band p f g q) x).2)
     = filter_states (process_block p x).2).
Proof.
  repeat split.
  - intros i band H. simpl. by apply lookup_app_l_Some.
  - intros i st H. simpl. by apply lookup_app_l_Some.
  - intros Hlen x _. rewrite !process_block_chain_run. simpl.
    rewrite length_app. simpl.
    rewrite (decide_False (P := (_ + 1)%nat = 0%nat)) by lia.
    destruct (decide (length (bands p) = 0%nat)) as [Hnil|Hnil].
    + rewrite Hnil in *. symmetry in Hlen.
      apply length_zero_iff_nil in Hlen. rewrite take_0. simpl.
      by rewrite Hlen.
    + rewrite chain_run_snoc by done.
      pose proof (chain_run_length_states (sample_rate p) (bands p)
                    (filter_states p) x) as Hst.
      destruct (chain_run _ _ _ x) as [[y|e] sts]; simpl in *.
      * destruct (band_step _ _ None y) as [[y' zf]|e]; simpl;
          rewrite take_app_length' by lia; done.
      * rewrite take_app_length' by lia. done.
Qed.

Lemma add_band_appends_witness :
  length (bands example_chain) = length (filter_states example_chain) /\
  [1; 2] ≠ [] /\
  take (length (bands example_chain))
    (filter_states (process_block (add_band example_chain 4000 (-3) 2) [1; 2]).2)
  = filter_states (process_block example_chain [1; 2]).2.
Proof.
  assert (H : [1; 2] ≠ []) by discriminate.
  split; [reflexivity|]. split; [exact H|].
  exact (proj2 (proj2 (proj2 (proj2 (proj2
           (add_band_appends example_chain 4000 (-3) 2)))))
           eq_refl [1; 2] H).
Defined.

(** ** Streaming *)

Lemma process_block_no_bands p x :
  length (bands p) = 0%nat -> process_block p x = (Ok x, p).
Proof. intros H. unfold process_block. by rewrite decide_True. Qed.

Lemma process_block_split_chain_run p x1 x2 :
  length (bands p) ≠ 0%nat ->
  process_split p x1 x2 =
  match chain_run (sample_rate p) (bands p) (filter_states p) x1 with
  | (Raise e, s1) => (Raise e, mkProcessor (sample_rate p) (bands p) s1)
  | (Ok y1, s1) =>
      match chain_run (sample_rate p) (bands p) s1 x2 with
      | (Raise e, s2) => (Raise e, mkProcessor (sample_rate p) (bands p) s2)
      | (Ok y2, s2) => (Ok (y1 ++ y2), mkProcessor (sample_rate p) (bands p) s2)
      end
  end.
Proof.
  intros Hne. unfold process_split. rewrite process_block_chain_run.
  case_decide; [done|].
  destruct (chain_run _ _ (filter_states p) x1) as [[y1|e] s1]; [|done].
  rewrite process_block_chain_run. simpl. case_decide; [done|].
  by destruct (chain_run _ _ s1 x2) as [[y2|e] s2].
Qed.

(** A signal cut in two consecutive sub-blocks, the first of them
    non-empty, and sent through the same processor in two
    [process_block] calls gives the result of one call on the whole
    signal: the same samples, or the same exception; and when the second
    sub-block is non-empty too and the call returns, the same stored
    states. *)
Lemma process_split_nonempty p x1 x2 :
  x1 ≠ [] ->
  (process_split p x1 x2).1 = (process_block p (x1 ++ x2)).1 /\
  (x2 ≠ [] -> is_ok (process_block p (x1 ++ x2)).1 = true ->
   (process_split p x1 x2).2 = (process_block p (x1 ++ x2)).2).
Proof.
  intros Hne.
  destruct (decide (length (bands p) = 0%nat)) as [Hnil|Hnil].
  - unfold process_split. by rewrite !process_block_no_bands.
  - rewrite process_block_split_chain_run by done.
    rewrite process_block_chain_run, decide_False by done.
    pose proof (chain_run_app (sample_rate p) (bands p) (filter_states p)
                  x1 x2 (or_introl Hne)) as Happ.
    destruct (chain_run _ _ (filter_states p) x1) as [[y1|e] s1].
    + destruct Happ as (y2 & s2 & -> & ->). done.
    + destruct (chain_run _ _ _ (x1 ++ x2)) as [r s]. simpl in *.
      subst r. done.
Qed.

(** The call on the whole signal of the witness does return. *)
Lemma streaming_example_returns :
  is_ok (process_block example_chain ([1; 2] ++ [3])).1 = true.
Proof.
  destruct example_chain_valid as (Hsr & Hval & Hlen).
  destruct (process_block_returns example_chain ([1; 2] ++ [3]) Hsr Hval Hlen)
    as (y & p' & -> & _); [by left | done].
Qed.

(** ** The empty block *)

Lemma process_block_empty_uninitialized p :
  length (bands p) = length (filter_states p) ->
  None ∈ filter_states p ->
  is_ok (process_block p []).1 = false.
Proof.
  intros Hlen Hin. rewrite process_block_chain_run.
  case_decide as Hnil.
  - rewrite Hnil in Hlen. destruct (filter_states p); [|done].
    by apply elem_of_nil in Hin.
  - pose proof (chain_run_nil_uninitialized (sample_rate p) _ _ Hlen Hin).
    by destruct (chain_run _ _ _ _).
Qed.

Lemma process_block_empty_active p :
  length (bands p) = length (filter_states p) ->
  Forall is_Some (filter_states p) ->
  process_block p [] = (Ok [], p).
Proof.
  intros Hlen Hact. rewrite process_block_chain_run.
  case_decide; [done|].
  rewrite chain_run_nil_active by done. by destruct p.
Qed.

Lemma example_chain_empty_block :
  process_block example_chain [] = (Raise IndexError, example_chain).
Proof.
  destruct example_chain_valid as (Hsr & Hval & _).
  inversion Hval as [|band ? Hb _]; subst.
  destruct (lfilter_zi_valid _ _ Hsr Hb) as [zi Hzi].
  rewrite process_block_chain_run. simpl. unfold band_step.
  destruct (get_filter_coefficients _ _) as [b a].
  by rewrite Hzi.
Qed.

(** C2, the code at the failing input. On the example chain, whose band
    is Uninitialized, the empty block is not accepted: the initial
    condition reads [processed[0]] and [process_block] raises
    [IndexError], leaving the processor as it was. The sibling paths do
    accept it and return the empty block: the chain without bands, and
    the same chain once a first block has made its band Active. *)
Theorem process_block_empty_raises :
  process_block example_chain [] = (Raise IndexError, example_chain) /\
  process_block (new_AudioProcessor 44100) []
  = (Ok [], new_AudioProcessor 44100) /\
  (exists y p1, process_block example_chain [1] = (Ok y, p1) /\
                (process_block p1 []).1 = Ok []).
Proof.
  split; [exact example_chain_empty_block|]. split; [reflexivity|].
  destruct example_chain_valid as (Hsr & Hval & Hlen).
  destruct (process_block_returns example_chain [1] Hsr Hval Hlen)
    as (y & p1 & Hrun & _); [by left|].
  exists y, p1. split; [done|].
  pose proof (process_block_frame example_chain [1]) as (_ & Hb & Hs).
  rewrite Hrun in Hb, Hs. simpl in Hb, Hs.
  rewrite process_block_empty_active; [done|by rewrite Hb, Hs|].
  revert Hrun. rewrite process_block_chain_run. simpl.
  destruct (band_step _ _ None [1]) as [[w zf]|e]; [|done].
  intros [= _ <-]. simpl. by repeat constructor.
Qed.

(** C3, the code at the failing input. On the example chain, whose band
    is Uninitialized, the signal [[1]] cut into the empty block and
    [[1]] is not processed as the whole: one call on the whole signal
    returns, the first of the two calls raises [IndexError] (the defect
    of the empty block). On every chain and for every cut whose first
    sub-block is non-empty the two calls give what the one call gives:
    the same samples, or the same exception, and, when the second
    sub-block is non-empty too and the call returns, the same stored
    filter states; the first-sample initial condition of an
    Uninitialized band is taken once, from the first sample of the
    first sub-block. *)
Theorem streaming_continuity :
  is_ok (process_block example_chain ([] ++ [1])).1 = true /\
  (process_split example_chain [] [1]).1 = Raise IndexError /\
  (forall p x1 x2, x1 ≠ [] ->
     (process_split p x1 x2).1 = (process_block p (x1 ++ x2)).1 /\
     (x2 ≠ [] -> is_ok (process_block p (x1 ++ x2)).1 = true ->
      (process_split p x1 x2).2 = (process_block p (x1 ++ x2)).2)).
Proof.
  split; [|split].
  - destruct example_chain_valid as (Hsr & Hval & Hlen).
    destruct (process_block_returns example_chain ([] ++ [1]) Hsr Hval Hlen)
      as (y & p' & -> & _); [by left | done].
  - unfold process_split. by rewrite example_chain_empty_block.
  - exact process_split_nonempty.
Qed.

Lemma streaming_continuity_witness :
  [1; 2] ≠ [] /\ [3] ≠ [] /\
  (process_split example_chain [1; 2] [3]).1
  = (process_block example_chain ([1; 2] ++ [3])).1 /\
  (process_split example_chain [1; 2] [3]).2
  = (process_block example_chain ([1; 2] ++ [3])).2.
Proof.
  assert (H1 : [1; 2] ≠ []) by discriminate.
  assert (H2 : [3] ≠ []) by discriminate.
  split; [exact H1|]. split; [exact H2|].
  destruct (proj2 (proj2 streaming_continuity) example_chain [1; 2] [3] H1)
    as [Hres Hst].
  split; [exact Hres|]. exact (Hst H2 streaming_example_returns).
Defined.

(** ** Zero gain *)

Transparent get_filter_coefficients lfilter_zi lfilter.

Lemma Cdiv_self u : Re u * Re u + Im u * Im u ≠ 0 -> Cdiv u u = Cone.
Proof.
  intros Hu. unfold Cdiv, Cone. f_equal; field; exact Hu.
Qed.

(** A second-order denominator [1 + a1 z + a2 z^2] with [|a2| < 1] and
    positive values at [z = 1] and [z = -1] has no zero on the unit
    circle. *)
Lemma denominator_nonzero a1 a2 c s :
  c * c + s * s = 1 -> a2 < 1 -> 0 < 1 + a1 + a2 -> 0 < 1 - a1 + a2 ->
  let re := 1 + (a1 * c + a2 * (c * c - - s * - s)) in
  let im := 0 + (a1 * - s + a2 * (c * - s + - s * c)) in
  re * re + im * im ≠ 0.
Proof.
  intros Hcs Ha2 Hp Hm re im Hz.
  assert (Hre : re = 0) by nra.
  assert (Him : im = 0) by nra.
  subst re im.
  assert (Hs : s * (a1 + 2 * a2 * c) = 0) by lra.
  apply Rmult_integral in Hs as [Hs|Hs].
  - subst s. assert (Hc : (c - 1) * (c + 1) = 0) by lra.
    apply Rmult_integral in Hc as [Hc|Hc].
    + replace c with 1 in Hre by lra. lra.
    + replace c with (-1) in Hre by lra. lra.
  - assert (1 - a2 + c * (a1 + 2 * a2 * c) = 0) by nra.
    rewrite Hs in *. lra.
Qed.

Lemma lfilter_loop_identity c0 c1 c2 x :
  lfilter_loop (1 / 1, c1 / 1, c2 / 1) (c0, c1 / 1, c2 / 1) x (0, 0)
  = (x, (0, 0)).
Proof.
  induction x as [|xm xs IH]; simpl; [done|].
  replace (1 / 1 * xm + 0) with xm by field.
  replace (c1 / 1 * xm + 0 - c1 / 1 * xm) with 0 by ring.
  replace (c2 / 1 * xm - c2 / 1 * xm) with 0 by ring.
  by rewrite IH.
Qed.

(** C4. A band with [gain_db = 0] inside the domain ([0 < f0 < fs/2],
    [Q > 0], [fs > 0]) has coefficient vectors [b] and [a] that are equal
    element by element; the filter they define is the identity: its
    transfer function is 1 at every frequency, its steady-state delay
    line is zero and from a zero delay line it returns its input. *)
Theorem zero_gain_identity f0 Q fs :
  0 < fs -> 0 < f0 < fs / 2 -> 0 < Q ->
  let '(b, a) := get_filter_coefficients (mkBand f0 0 Q) fs in
  b = a /\
  (forall frequencies,
     freqz b a frequencies fs = (fun _ => Cone) <$> frequencies) /\
  lfilter_zi b a = Ok (0, 0) /\
  (forall x, lfilter b a x (0, 0) = (x, (0, 0))).
Proof.
  intros Hfs Hf HQ.
  assert (Hband : valid_band fs (mkBand f0 0 Q)) by done.
  pose proof (valid_alpha fs _ Hfs Hband) as Halpha.
  pose proof (valid_cos fs _ Hfs Hband) as Hcos.
  pose proof (valid_w0 fs _ Hfs Hband) as [Hw0 Hw1].
  unfold get_filter_coefficients. simpl in *.
  set (w0 := 2 * PI * f0 / fs) in *.
  set (alpha := sin w0 / (2 * Q)) in *.
  assert (Hcos' : -1 < cos w0).
  { pose proof PI_RGT_0. rewrite <- cos_PI. apply cos_decreasing_1; lra. }
  replace (0 / 20) with 0 by field.
  rewrite Rpower_O by lra.
  replace (alpha * 1) with alpha by ring.
  replace (alpha / 1) with alpha by field.
  set (a0 := 1 + alpha).
  assert (Ha0 : 0 < a0) by (subst a0; lra).
  replace (a0 / a0) with 1 by (field; lra).
  set (a1 := -2 * cos w0 / a0). set (a2 := (1 - alpha) / a0).
  assert (Ha2 : a2 < 1).
  { subst a2. apply (Rmult_lt_reg_r a0); [done|].
    unfold Rdiv. rewrite Rmult_assoc, Rinv_l by lra. subst a0. lra. }
  assert (Hp : 0 < 1 + a1 + a2).
  { replace (1 + a1 + a2) with ((2 - 2 * cos w0) / a0)
      by (subst a1 a2 a0; field; lra).
    apply Rdiv_lt_0_compat; lra. }
  assert (Hm : 0 < 1 - a1 + a2).
  { replace (1 - a1 + a2) with ((2 + 2 * cos w0) / a0)
      by (subst a1 a2 a0; field; lra).
    apply Rdiv_lt_0_compat; lra. }
  split; [done|]. split; [|split].
  - intros frequencies. unfold freqz. apply list_fmap_ext.
    intros _ f _. apply Cdiv_self. simpl.
    apply denominator_nonzero; try done.
    pose proof (sin2_cos2 (2 * PI * f / fs)) as Hsc.
    unfold Rsqr in Hsc. lra.
  - unfold lfilter_zi, normalize_taps.
    rewrite decide_False by lra.
    f_equal. f_equal; field; lra.
  - intros x. unfold lfilter, normalize_taps. apply lfilter_loop_identity.
Qed.

Lemma zero_gain_identity_witness :
  0 < 44100 /\ 0 < 1000 < 44100 / 2 /\ 0 < 1 /\
  let '(b, a) := get_filter_coefficients (mkBand 1000 0 1) 44100 in
  b = a /\
  (forall frequencies,
     freqz b a frequencies 44100 = (fun _ => Cone) <$> frequencies) /\
  lfilter_zi b a = Ok (0, 0) /\
  (forall x, lfilter b a x (0, 0) = (x, (0, 0))).
Proof.
  assert (H1 : 0 < 44100) by lra.
  assert (H2 : 0 < 1000 < 44100 / 2) by lra.
  assert (H3 : 0 < 1) by lra.
  split; [exact H1|]. split; [exact H2|]. split; [exact H3|].
  exact (zero_gain_identity 1000 1 44100 H1 H2 H3).
Defined.

Opaque get_filter_coefficients lfilter_zi lfilter.

(** ** Presets *)

(** C7. When the preset exists and the number of its gains differs from
    the number of configured bands, [apply_preset] returns [False],
    prints the two counts, and leaves the processor (sample rate, band
    list and filter states) and the configuration as they were. *)
Theorem apply_preset_mismatch self preset_name preset :
  dict_get (default [] (cfg_presets (config self))) preset_name = Some preset ->
  length (gains preset) ≠ length (default [] (cfg_bands (config self))) ->
  (apply_preset self preset_name).1 = false /\
  processor (apply_preset self preset_name).2 = processor self /\
  bands (processor (apply_preset self preset_name).2) = bands (processor self) /\
  filter_states (processor (apply_preset self preset_name).2)
  = filter_states (processor self) /\
  config (apply_preset self preset_name).2 = config self /\
  stdout (apply_preset self preset_name).2
  = stdout self ++
    ["Error: Preset has " +:+ pretty (length (gains preset)) +:+ " gains but "
     +:+ pretty (length (default [] (cfg_bands (config self))))
     +:+ " bands configured."].
Proof.
  intros Hget Hlen. unfold apply_preset. rewrite Hget.
  rewrite decide_True by done. done.
Qed.

Lemma apply_preset_mismatch_witness :
  dict_get (default [] (cfg_presets (config example_equalizer))) "short"
  = Some (mkPreset "One gain only" [3]) /\
  length (gains (mkPreset "One gain only" [3]))
  ≠ length (default [] (cfg_bands (config example_equalizer))) /\
  (apply_preset example_equalizer "short").1 = false /\
  processor (apply_preset example_equalizer "short").2
  = processor example_equalizer /\
  stdout (apply_preset example_equalizer "short").2
  = ["Error: Preset has 1 gains but 2 bands configured."].
Proof.
  assert (H1 : dict_get (default [] (cfg_presets (config example_equalizer)))
                 "short" = Some (mkPreset "One gain only" [3])) by reflexivity.
  assert (H2 : length (gains (mkPreset "One gain only" [3]))
               ≠ length (default [] (cfg_bands (config example_equalizer))))
    by (simpl; lia).
  split; [exact H1|]. split; [exact H2|].
  pose proof (apply_preset_mismatch example_equalizer "short" _ H1 H2)
    as (Hr & Hp & _ & _ & _ & Hout).
  split; [exact Hr|]. split; [exact Hp|]. exact Hout.
Defined.

(** ** The frequency response *)

Lemma total_response_length (h : EqualizerBand -> list complex) n bs :
  (forall band, length (h band) = n) ->
  forall total, length total = n ->
  length (foldl (fun total band => zip_with Cmul total (h band)) total bs) = n.
Proof.
  intros Hh. induction bs as [|band rest IH]; intros total Ht; simpl; [done|].
  apply IH. rewrite length_zip_with, Ht, Hh. lia.
Qed.



(** ** Normalization *)

Lemma foldl_Rmax_ge xs : forall x y, y ∈ x :: xs -> y <= foldl Rmax x xs.
Proof.
  induction xs as [|z zs IH]; intros x y Hy; simpl.
  - apply list_elem_of_singleton in Hy as ->. lra.
  - apply elem_of_cons in Hy as [->|Hy].
    + transitivity (Rmax x z); [apply Rmax_l | apply IH, elem_of_cons; by left].
    + apply elem_of_cons in Hy as [->|Hy].
      * transitivity (Rmax x z); [apply Rmax_r | apply IH, elem_of_cons; by left].
      * apply IH, elem_of_cons. by right.
Qed.

Lemma foldl_Rmax_in xs : forall x, foldl Rmax x xs ∈ x :: xs.
Proof.
  induction xs as [|z zs IH]; intros x; simpl.
  - apply elem_of_cons. by left.
  - specialize (IH (Rmax x z)). apply elem_of_cons in IH as [Heq|Hin].
    + rewrite Heq. unfold Rmax. destruct (Rle_dec x z).
      * apply elem_of_cons. right. apply elem_of_cons. by left.
      * apply elem_of_cons. by left.
    + apply elem_of_cons. right. apply elem_of_cons. by right.
Qed.

Lemma foldl_Rmax_scale s xs : 0 <= s ->
  forall x, foldl Rmax (x * s) ((fun v => v * s) <$> xs) = foldl Rmax x xs * s.
Proof.
  intros Hs. induction xs as [|z zs IH]; intros x; simpl; [done|].
  rewrite <- IH. f_equal.
  rewrite (Rmult_comm x s), (Rmult_comm z s), (Rmult_comm (Rmax x z) s).
  by apply RmaxRmult.
Qed.

(** The peak of a non-empty block: the largest absolute value. *)
Lemma np_max_abs_spec audio_data :
  audio_data ≠ [] ->
  exists peak,
    np_max (Rabs <$> audio_data) = Ok peak /\ 0 <= peak /\
    (forall x, x ∈ audio_data -> Rabs x <= peak) /\
    (exists x, x ∈ audio_data /\ Rabs x = peak).
Proof.
  destruct audio_data as [|x xs]; [done|]. intros _. simpl.
  eexists. split; [done|].
  assert (Hge : forall v, v ∈ x :: xs ->
                          Rabs v <= foldl Rmax (Rabs x) (Rabs <$> xs)).
  { intros v Hv. apply foldl_Rmax_ge.
    change (Rabs v ∈ Rabs <$> (x :: xs)). by apply list_elem_of_fmap_2. }
  split; [|split; [exact Hge|]].
  - transitivity (Rabs x); [apply Rabs_pos | apply Hge, elem_of_cons; by left].
  - pose proof (foldl_Rmax_in (Rabs <$> xs) (Rabs x)) as Hin.
    change (foldl Rmax (Rabs x) (Rabs <$> xs) ∈ Rabs <$> (x :: xs)) in Hin.
    apply list_elem_of_fmap in Hin as (v & Hv & Hin). eauto.
Qed.

(** C5, as stated, fails on the empty block: it has no peak, and
    [numpy.max] raises. *)
Lemma normalize_audio_empty : normalize_audio [] (-3) = Raise ValueError.
Proof. reflexivity. Qed.

(** C5, amended. For every non-empty block and every target level, with
    [peak] the largest absolute value of the block: if [peak = 0] the
    block is returned unchanged; otherwise every sample is multiplied by
    the one scalar [10^(target/20) / peak], and the peak of the output is
    [10^(target/20)]. *)
Theorem normalize_audio_spec audio_data target_level :
  audio_data ≠ [] ->
  exists peak,
    np_max (Rabs <$> audio_data) = Ok peak /\
    (forall x, x ∈ audio_data -> Rabs x <= peak) /\
    (exists x, x ∈ audio_data /\ Rabs x = peak) /\
    (peak = 0 -> normalize_audio audio_data target_level = Ok audio_data) /\
    (peak ≠ 0 ->
     let scale := Rpower 10 (target_level / 20) / peak in
     normalize_audio audio_data target_level
     = Ok ((fun x => x * scale) <$> audio_data) /\
     np_max (Rabs <$> ((fun x => x * scale) <$> audio_data))
     = Ok (Rpower 10 (target_level / 20))).
Proof.
  intros Hne.
  destruct (np_max_abs_spec audio_data Hne) as (peak & Hpeak & H0 & Hge & Hin).
  exists peak. split; [done|]. split; [done|]. split; [done|].
  unfold normalize_audio. rewrite Hpeak. simpl. split.
  - intros ->. by rewrite decide_True.
  - intros Hnz. cbv zeta.
    set (scale := Rpower 10 (target_level / 20) / peak).
    rewrite decide_False by done. split; [done|].
    assert (Hscale : 0 < scale).
    { apply Rdiv_lt_0_compat; [apply exp_pos | lra]. }
    assert (Habs : Rabs <$> ((fun x => x * scale) <$> audio_data)
                   = (fun v => v * scale) <$> (Rabs <$> audio_data)).
    { rewrite <- !list_fmap_compose. apply list_fmap_ext. intros _ x _. simpl.
      rewrite Rabs_mult, (Rabs_pos_eq scale); [done | lra]. }
    rewrite Habs. destruct audio_data as [|x xs]; [done|].
    simpl in *. injection Hpeak as Hpeak.
    rewrite foldl_Rmax_scale, Hpeak by lra.
    f_equal. subst scale. field. done.
Qed.

Lemma normalize_audio_spec_witness :
  [1; -2] ≠ [] /\
  exists peak,
    np_max (Rabs <$> [1; -2]) = Ok peak /\
    (forall x, x ∈ [1; -2] -> Rabs x <= peak) /\
    (exists x, x ∈ [1; -2] /\ Rabs x = peak) /\
    (peak = 0 -> normalize_audio [1; -2] (-3) = Ok [1; -2]) /\
    (peak ≠ 0 ->
     let scale := Rpower 10 (-3 / 20) / peak in
     normalize_audio [1; -2] (-3) = Ok ((fun x => x * scale) <$> [1; -2]) /\
     np_max (Rabs <$> ((fun x => x * scale) <$> [1; -2]))
     = Ok (Rpower 10 (-3 / 20))).
Proof.
  assert (H : [1; -2] ≠ []) by discriminate.
  split; [exact H | exact (normalize_audio_spec [1; -2] (-3) H)].
Defined.

(** ** Fades *)

Lemma linspace_ok start stop num :
  (0 <= num)%Z ->
  linspace start stop num
  = Ok (ramp start stop (Z.to_nat num) <$> seq 0 (Z.to_nat num)).
Proof. intros H. unfold linspace. by rewrite decide_False by lia. Qed.

Lemma linspace_negative start stop num :
  (num < 0)%Z -> linspace start stop num = Raise ValueError.
Proof. intros H. unfold linspace. by rewrite decide_True. Qed.

(** Multiplying the first [k] samples by [f 0 .. f (k-1)]. *)
Lemma mul_prefix (f : nat -> R) l : forall k g,
  (k <= length l)%nat ->
  (forall i, (i < k)%nat -> g i = f i) ->
  zip_with Rmult (take k l) (g <$> seq 0 k) ++ drop k l
  = imap (fun i x => x * (if decide (i < k)%nat then f i else 1)) l.
Proof.
  revert f. induction l as [|x l IH]; intros f k g Hk Hg.
  { simpl in Hk. by replace k with 0%nat by lia. }
  destruct k as [|k].
  - change (x :: l = imap (fun (i : nat) (y : R) =>
                             y * (if decide (i < 0)%nat then f i else 1))
                          (x :: l)).
    transitivity (imap (fun (_ : nat) (y : R) => y) (x :: l)).
    + by rewrite (imap_const (fun y : R => y)), list_fmap_id.
    + apply imap_ext. intros i y _. cbv beta.
      rewrite decide_False by lia. ring.
  - simpl. rewrite <- fmap_S_seq, <- list_fmap_compose.
    rewrite (IH (f ∘ S) k (g ∘ S)).
    + f_equal; [by rewrite Hg by lia|].
      apply imap_ext. intros i y _. simpl.
      destruct (decide (i < k)%nat), (decide (S i < S k)%nat); done || lia.
    + simpl in Hk. lia.
    + intros i Hi. simpl. apply Hg. lia.
Qed.

(** Multiplying the last [k] samples, those from index [s] on. *)
Lemma mul_suffix (f : nat -> R) s : forall l k,
  (s + k = length l)%nat ->
  take s l ++ zip_with Rmult (drop s l) (f <$> seq 0 k) ++ drop (length l) l
  = imap (fun i x => x * (if decide (s <= i)%nat then f (i - s)%nat else 1)) l.
Proof.
  induction s as [|s IH]; intros l k Hsk.
  - pose proof (mul_prefix f l k f ltac:(lia) ltac:(done)) as H.
    rewrite take_ge, drop_ge, app_nil_r in H by lia.
    rewrite drop_all, app_nil_r, take_0, drop_0, app_nil_l, H.
    apply imap_ext. intros i y Hi. cbv beta.
    apply lookup_lt_Some in Hi.
    rewrite decide_True by lia. rewrite decide_True by lia.
    by rewrite Nat.sub_0_r.
  - destruct l as [|x l]; [simpl in Hsk; lia|].
    simpl. rewrite (IH l k) by (simpl in Hsk; lia).
    f_equal.
    + ring.
    + apply imap_ext. intros i y _. cbv beta. unfold compose.
      destruct (decide (s <= i)%nat), (decide (S s <= S i)%nat); done || lia.
Qed.

Lemma imap_imap_R (f g : nat -> R -> R) (l : list R) :
  imap g (imap f l) = imap (fun i x => g i (f i x)) l.
Proof.
  apply list_eq. intros i. rewrite !list_lookup_imap.
  by destruct (l !! i).
Qed.

Lemma imul_slice_prefix data m :
  (m <= length data)%nat ->
  imul_slice data 0 (Nat.min (length (ramp 0 1 m <$> seq 0 m)) (length data))
    (ramp 0 1 m <$> seq 0 m)
  = Ok (imap (fun i x => x * (if decide (i < m)%nat then ramp 0 1 m i else 1))
          data).
Proof.
  intros Hm. unfold imul_slice.
  rewrite length_fmap, length_seq, Nat.min_l, Nat.sub_0_r, drop_0, take_0 by done.
  rewrite decide_True by (rewrite ?length_fmap, ?length_seq, length_take; lia).
  rewrite app_nil_l. f_equal. by apply mul_prefix.
Qed.

Lemma imul_slice_suffix arr m :
  (m <= length arr)%nat -> (m = 0%nat -> arr = []) ->
  imul_slice arr (tail_start (length arr) (length (ramp 1 0 m <$> seq 0 m)))
    (length arr) (ramp 1 0 m <$> seq 0 m)
  = Ok (imap (fun i x =>
                x * (if decide (length arr - m <= i)%nat
                     then ramp 1 0 m (i - (length arr - m)) else 1))
          arr).
Proof.
  intros Hm H0. unfold imul_slice, tail_start.
  rewrite length_fmap, length_seq.
  assert (Hs : (if decide (m = 0%nat) then 0%nat else (length arr - m)%nat)
               = (length arr - m)%nat).
  { case_decide as Hz; [|done]. rewrite (H0 Hz). simpl. lia. }
  rewrite Hs.
  rewrite decide_True
    by (rewrite ?length_fmap, ?length_seq, length_take, length_drop; lia).
  rewrite (take_ge (drop _ _)) by (rewrite length_drop; lia).
  f_equal. apply mul_suffix. lia.
Qed.

Example linspace_three : linspace 0 1 3 = Ok [0; 1 / 2; 1].
Proof.
  rewrite linspace_ok by lia. unfold ramp. simpl.
  do 2 f_equal; [ring|]. f_equal; [field|]. f_equal. field.
Qed.

Example linspace_one : linspace 1 0 1 = Ok [1].
Proof.
  rewrite linspace_ok by lia. unfold ramp. simpl. do 2 f_equal. ring.
Qed.

(** Whatever [fade_samples] is, and also when [apply_fade] raises, the
    array it was given is still in the store, unchanged. *)
Lemma apply_fade_input_untouched h audio_data data fade_samples :
  h !! audio_data = Some data ->
  (apply_fade h audio_data fade_samples).2 !! audio_data = Some data.
Proof.
  intros Hdata. unfold apply_fade. rewrite Hdata.
  assert (Hne : fresh (dom h) ≠ audio_data).
  { intros Heq. pose proof (is_fresh (dom h)) as Hf.
    rewrite Heq in Hf. apply Hf, elem_of_dom. eauto. }
  destruct (linspace 0 1 _) as [fade_in|e]; simpl;
    [|by rewrite lookup_insert_ne].
  destruct (imul_slice data _ _ fade_in) as [faded_in|e]; simpl;
    [|by rewrite lookup_insert_ne].
  destruct (linspace 1 0 _) as [fade_out|e]; simpl;
    [|by rewrite !lookup_insert_ne].
  destruct (imul_slice faded_in _ _ fade_out) as [faded|e]; simpl;
    by rewrite !lookup_insert_ne.
Qed.

(** For every block and every [fade_samples >= 1],
    [apply_fade] returns a new array and leaves the store as it was,
    the input block included; the new array is the block with its first
    [min(fade_samples, len)] samples multiplied by the ramp from 0 to 1
    and its last [min(fade_samples, len)] samples by the ramp from 1 to
    0, a sample in both regions being multiplied by both factors. *)
Lemma apply_fade_spec h audio_data data fade_samples :
  h !! audio_data = Some data -> (1 <= fade_samples)%Z ->
  exists result,
    apply_fade h audio_data fade_samples
    = (Ok result, <[result := spec_fade data (Z.to_nat fade_samples)]> h) /\
    h !! result = None /\
    result ≠ audio_data /\
    <[result := spec_fade data (Z.to_nat fade_samples)]> h !! audio_data
    = Some data.
Proof.
  intros Hdata Hfs. unfold apply_fade. rewrite Hdata.
  set (r := fresh (dom h)).
  assert (Hfresh : h !! r = None) by apply not_elem_of_dom, is_fresh.
  assert (Hne : r ≠ audio_data) by congruence.
  rewrite !linspace_ok by lia.
  assert (Hm : Z.to_nat (Z.min fade_samples (Z.of_nat (length data)))
               = Nat.min (Z.to_nat fade_samples) (length data)) by lia.
  rewrite Hm. set (m := Nat.min (Z.to_nat fade_samples) (length data)).
  rewrite imul_slice_prefix by lia.
  set (faded_in := imap _ data).
  assert (Hlen : length faded_in = length data) by apply length_imap.
  rewrite <- Hlen.
  rewrite imul_slice_suffix; [|lia|].
  2: { intros H0. apply length_zero_iff_nil. lia. }
  exists r. split; [|split; [done|split; [done|]]].
  - f_equal. rewrite !insert_insert_eq. f_equal.
    unfold spec_fade. fold m. subst faded_in. rewrite imap_imap_R, Hlen.
    reflexivity.
  - by rewrite lookup_insert_ne.
Qed.

(** C6, the code at the failing input. With [fade_samples = 0] the
    block [[1; 1]] is not returned as a new, unchanged block, which is
    what the fade of the specification gives for a ramp of no samples:
    [apply_fade] raises [ValueError]. The fade-in line takes the empty
    ramp (its slice [result[:0]] is empty), the fade-out line does not:
    its slice [result[-0:]] is the whole block. For every block and
    every [fade_samples >= 1] the call returns a new array holding the
    fade of the specification and leaves the store as it was; and
    whatever [fade_samples] is, also when the call raises, the block
    that was passed keeps its samples. *)
Theorem apply_fade_zero_count :
  (apply_fade {[1%positive := [1; 1]]} 1%positive 0).1 = Raise ValueError /\
  spec_fade [1; 1] 0 = [1; 1] /\
  imul_slice [1; 1] 0 (Nat.min 0 2) [] = Ok [1; 1] /\
  imul_slice [1; 1] (tail_start 2 0) 2 [] = Raise ValueError /\
  (forall h audio_data data fade_samples,
     h !! audio_data = Some data ->
     ((1 <= fade_samples)%Z ->
      exists result,
        apply_fade h audio_data fade_samples
        = (Ok result, <[result := spec_fade data (Z.to_nat fade_samples)]> h) /\
        h !! result = None /\
        result ≠ audio_data) /\
     (apply_fade h audio_data fade_samples).2 !! audio_data = Some data).
Proof.
  split; [|split; [|split; [|split]]].
  - unfold apply_fade. rewrite lookup_singleton_eq.
    rewrite !linspace_ok by (simpl; lia). reflexivity.
  - unfold spec_fade. simpl. repeat f_equal; lra.
  - reflexivity.
  - reflexivity.
  - intros h audio_data data fade_samples Hdata. split.
    + intros Hfs.
      destruct (apply_fade_spec h audio_data data fade_samples Hdata Hfs)
        as (result & Hcall & Hfresh & Hne & _).
      by exists result.
    + by apply apply_fade_input_untouched.
Qed.

Lemma apply_fade_zero_count_witness :
  ({[1%positive := [1; 1; 1]]} : heap) !! 1%positive = Some [1; 1; 1] /\
  (1 <= 2)%Z /\
  exists result,
    apply_fade {[1%positive := [1; 1; 1]]} 1%positive 2
    = (Ok result,
       <[result := spec_fade [1; 1; 1] (Z.to_nat 2)]> {[1%positive := [1; 1; 1]]}) /\
    ({[1%positive := [1; 1; 1]]} : heap) !! result = None /\
    result ≠ 1%positive.
Proof.
  assert (H1 : ({[1%positive := [1; 1; 1]]} : heap) !! 1%positive
               = Some [1; 1; 1]) by apply lookup_singleton_eq.
  assert (H2 : (1 <= 2)%Z) by lia.
  split; [exact H1|]. split; [exact H2|].
  exact (proj1 (proj2 (proj2 (proj2 (proj2 apply_fade_zero_count)))
                  _ 1%positive [1; 1; 1] 2%Z H1) H2).
Defined.

(** ** The coefficient formula and its worked example *)

Transparent get_filter_coefficients.

(** Enclosures of the constants of the worked example: [pi] from the
    series of [2 atan(1/3) + atan(1/7)], [10^(6/20)] from its tenth
    power, sine and cosine from their alternating series. *)
Lemma PI_bounds : 314159 / 100000 < PI < 31416 / 10000.
Proof.
  pose proof (PI_2_3_7_ineq 2) as [Hlo Hhi].
  unfold sum_f_R0, tg_alt, PI_2_3_7_tg, Ratan_seq in Hlo, Hhi.
  simpl in Hlo, Hhi.
  split; lra.
Qed.

Lemma pow10_bounds : 1995262 / 1000000 < Rpower 10 (6 / 20) < 1995263 / 1000000.
Proof.
  set (y := Rpower 10 (6 / 20)).
  assert (Hy : 0 < y) by apply exp_pos.
  assert (Hy10 : y ^ 10 = 1000).
  { rewrite <- Rpower_pow by done. subst y. rewrite Rpower_mult.
    replace (6 / 20 * INR 10) with (INR 3) by (simpl; lra).
    rewrite Rpower_pow by lra. simpl. lra. }
  split.
  - apply Rnot_le_lt. intros Hle.
    assert (H := pow_incr y (1995262 / 1000000) 10 (conj (Rlt_le _ _ Hy) Hle)).
    rewrite Hy10 in H. lra.
  - apply Rnot_le_lt. intros Hle.
    assert (H0 : 0 <= 1995263 / 1000000) by lra.
    assert (H := pow_incr (1995263 / 1000000) y 10 (conj H0 Hle)).
    rewrite Hy10 in H. lra.
Qed.

Lemma w0_bounds :
  142475 / 1000000 < 2 * PI * 1000 / 44100 < 142477 / 1000000.
Proof. pose proof PI_bounds. split; lra. Qed.

Lemma sin_w0_bounds :
  141992 / 1000000 < sin (2 * PI * 1000 / 44100) < 141996 / 1000000.
Proof.
  pose proof PI_bounds as HPI. pose proof w0_bounds as [Hlo Hhi].
  split.
  - apply Rlt_trans with (sin (142475 / 1000000)).
    + destruct (pre_sin_bound (142475 / 1000000) 0) as [H _]; [lra | lra |].
      unfold sin_approx, sum_f_R0, sin_term in H. simpl in H. lra.
    + apply sin_increasing_1; lra.
  - apply Rlt_trans with (sin (142477 / 1000000)).
    + apply sin_increasing_1; lra.
    + destruct (pre_sin_bound (142477 / 1000000) 0) as [_ H]; [lra | lra |].
      unfold sin_approx, sum_f_R0, sin_term in H. simpl in H. lra.
Qed.

Lemma cos_w0_bounds :
  989867 / 1000000 < cos (2 * PI * 1000 / 44100) < 989868 / 1000000.
Proof.
  pose proof PI_bounds as HPI. pose proof w0_bounds as [Hlo Hhi].
  split.
  - apply Rlt_trans with (cos (142477 / 1000000)).
    + destruct (pre_cos_bound (142477 / 1000000) 1) as [H _]; [lra | lra |].
      unfold cos_approx, sum_f_R0, cos_term in H. simpl in H. lra.
    + apply cos_decreasing_1; lra.
  - apply Rlt_trans with (cos (142475 / 1000000)).
    + apply cos_decreasing_1; lra.
    + destruct (pre_cos_bound (142475 / 1000000) 0) as [_ H]; [lra | lra |].
      unfold cos_approx, sum_f_R0, cos_term in H. simpl in H. lra.
Qed.

Lemma div_lt_bound x a b : 0 < a -> x < b * a -> x / a < b.
Proof.
  intros Ha H. apply (Rmult_lt_reg_r a); [done|].
  unfold Rdiv. rewrite Rmult_assoc, Rinv_l by lra. lra.
Qed.

Lemma bound_lt_div x a b : 0 < a -> b * a < x -> b < x / a.
Proof.
  intros Ha H. apply (Rmult_lt_reg_r a); [done|].
  unfold Rdiv. rewrite Rmult_assoc, Rinv_l by lra. lra.
Qed.

Lemma Rabs_enclosed x a t eps :
  0 < a -> (t - eps) * a < x < (t + eps) * a -> Rabs (x / a - t) < eps.
Proof.
  intros Ha [Hlo Hhi].
  pose proof (div_lt_bound x a (t + eps) Ha Hhi).
  pose proof (bound_lt_div x a (t - eps) Ha Hlo).
  apply Rabs_def1; lra.
Qed.

Lemma golden_enclosure alpha g c :
  70996 / 1000000 < alpha < 70998 / 1000000 ->
  1995262 / 1000000 < g < 1995263 / 1000000 ->
  989867 / 1000000 < c < 989868 / 1000000 ->
  let a0 := 1 + alpha / g in
  let eps := 5 / 1000000 in
  Rabs ((1 + alpha * g) / a0 - 110243 / 100000) < eps /\
  Rabs (-2 * c / a0 - -191171 / 100000) < eps /\
  Rabs ((1 - alpha * g) / a0 - 82885 / 100000) < eps /\
  Rabs ((1 - alpha / g) / a0 - 93128 / 100000) < eps.
Proof.
  intros Ha Hg Hc a0 eps.
  set (u := alpha / g) in *. set (v := alpha * g).
  assert (Hug : u * g = alpha) by (subst u; field; lra).
  assert (Hu : 35582 / 1000000 < u < 35584 / 1000000).
  { assert (0 < u) by (subst u; apply Rdiv_lt_0_compat; lra). split; nra. }
  assert (Hv : 141655 / 1000000 < v < 141661 / 1000000) by (subst v; split; nra).
  assert (Ha0 : 0 < a0) by (subst a0; lra).
  subst eps.
  repeat split; (apply Rabs_enclosed; [exact Ha0|]); subst a0 v; split; nra.
Qed.

(** For a gain other than 0 dB the two scalings of [alpha] differ. *)
Lemma linear_gain_not_sqrt : Rpower 10 (6 / 20) ≠ Rpower 10 (6 / 40).
Proof.
  assert (H : Rpower 10 (6 / 40) < Rpower 10 (6 / 20))
    by (apply Rpower_lt; lra).
  lra.
Qed.

(** C1. [get_filter_coefficients] returns the tuple of the formula of
    section 4.1, for every band and sample rate: [alpha] is multiplied
    and divided by the linear gain [10^(G/20)] itself. For the band
    (1000 Hz, +6 dB, Q = 1) at 44100 Hz the tuple is, to five decimals,
    b = (1.10243, -1.91171, 0.82885), a = (1, -1.91171, 0.93128), and it
    is not the tuple of the cookbook form, which uses the square root of
    the gain. *)
Theorem coefficients_match_spec :
  (forall f0 G Q fs,
     get_filter_coefficients (mkBand f0 G Q) fs = spec_coefficients f0 G Q fs) /\
  (let '((b0, b1, b2), (a0, a1, a2)) :=
     get_filter_coefficients (mkBand 1000 6 1) 44100 in
   let eps := 5 / 1000000 in
   Rabs (b0 - 110243 / 100000) < eps /\
   Rabs (b1 - -191171 / 100000) < eps /\
   Rabs (b2 - 82885 / 100000) < eps /\
   a0 = 1 /\ a1 = b1 /\
   Rabs (a2 - 93128 / 100000) < eps) /\
  get_filter_coefficients (mkBand 1000 6 1) 44100
  ≠ cookbook_coefficients 1000 6 1 44100.
Proof.
  split; [reflexivity|].
  pose proof sin_w0_bounds as Hsin. pose proof cos_w0_bounds as Hcos.
  pose proof pow10_bounds as Hg.
  unfold get_filter_coefficients, cookbook_coefficients. simpl.
  set (w0 := 2 * PI * 1000 / 44100) in *.
  set (g := Rpower 10 (6 / 20)) in *.
  set (alpha := sin w0 / (2 * 1)).
  assert (Halpha : 70996 / 1000000 < alpha < 70998 / 1000000)
    by (subst alpha; lra).
  split.
  - destruct (golden_enclosure alpha g (cos w0) Halpha Hg Hcos)
      as (H0 & H1 & H2 & H3).
    repeat split; done.
  - intros Heq. injection Heq as _ _ _ _ Ha2.
    set (A := Rpower 10 (6 / 40)) in *.
    assert (HA : 0 < A) by apply exp_pos.
    assert (Hne : g ≠ A) by apply linear_gain_not_sqrt.
    set (u := alpha / g) in *. set (u' := alpha / A) in *.
    assert (Hu : 0 < u) by (apply Rdiv_lt_0_compat; lra).
    assert (Hu' : 0 < u') by (apply Rdiv_lt_0_compat; lra).
    assert (Huu : u = u').
    { assert ((1 - u) * (1 + u') = (1 - u') * (1 + u)); [|lra].
      apply (Rmult_eq_reg_r (/ (1 + u) * / (1 + u')));
        [|apply Rmult_integral_contrapositive_currified;
          apply Rinv_neq_0_compat; lra].
      unfold Rdiv in Ha2. transitivity ((1 - u) * / (1 + u)); [field; lra|].
      rewrite Ha2. field. lra. }
    apply Hne. subst u u'.
    assert (Hgu : alpha / g * g = alpha) by (field; lra).
    assert (HAu : alpha / A * A = alpha) by (field; lra).
    rewrite Huu in Hgu.
    apply (Rmult_eq_reg_l (alpha / A)); [lra|].
    apply Rgt_not_eq. apply Rdiv_lt_0_compat; lra.
Qed.

Opaque get_filter_coefficients.

(** ** The fade on the block of the specification's test *)

Lemma ramp_start a b m : ramp a b m 0 = a.
Proof. unfold ramp. simpl. ring. Qed.

Lemma ramp_end a b m : (2 <= m)%nat -> ramp a b m (m - 1) = b.
Proof.
  intros Hm. unfold ramp. field. apply not_0_INR. lia.
Qed.

(** A block of 1000 ones faded over 100 samples starts and ends at 0 and
    is 1 in the middle. *)
Lemma spec_fade_ones :
  spec_fade (replicate 1000 1) 100 !! 0%nat = Some 0 /\
  spec_fade (replicate 1000 1) 100 !! 999%nat = Some 0 /\
  spec_fade (replicate 1000 1) 100 !! 500%nat = Some 1.
Proof.
  unfold spec_fade. rewrite !list_lookup_imap, length_replicate.
  rewrite !lookup_replicate_2 by lia.
  replace (Nat.min 100 1000) with 100%nat by lia.
  simpl fmap. repeat split; f_equal.
  - rewrite ramp_start. ring.
  - change 99%nat with (100 - 1)%nat. rewrite ramp_end by lia. ring.
  - ring.
Qed.

(** * Further properties of the processor *)

Lemma chain_run_active sr bs : forall states x y states',
  length bs = length states ->
  chain_run sr bs states x = (Ok y, states') -> Forall is_Some states'.
Proof.
  induction bs as [|band rest IH]; intros states x y states' Hlen;
    destruct states as [|st sts]; try discriminate; simpl.
  - by intros [= _ <-].
  - destruct (band_step sr band st x) as [[y1 zf]|e]; [|done].
    destruct (chain_run sr rest sts y1) as [r sts'] eqn:Hrun.
    intros [= -> <-]. constructor; [by eexists|].
    eapply IH; [|exact Hrun]. simpl in Hlen. lia.
Qed.

Lemma chain_run_nil_states sr bs : forall states,
  (chain_run sr bs states []).2 = states.
Proof.
  induction bs as [|band rest IH]; intros states; simpl; [done|].
  destruct states as [|st sts]; [done|].
  unfold band_step. destruct (get_filter_coefficients band sr) as [b a].
  destruct st as [zi|].
  - rewrite lfilter_nil. specialize (IH sts).
    destruct (chain_run sr rest sts []) as [r sts']. simpl in *. by subst.
  - by destruct (lfilter_zi b a) as [[z0 z1]|e].
Qed.

Transparent lfilter_zi.

Lemma chain_run_nil_error sr bs : forall states,
  length bs = length states -> None ∈ states ->
  exists e,
    (chain_run sr bs states []).1 = Raise e /\
    (e = IndexError \/ e = LinAlgError) /\
    (0 < sr -> Forall (valid_band sr) bs -> e = IndexError).
Proof.
  induction bs as [|band rest IH]; intros states Hlen Hin;
    destruct states as [|st sts]; try discriminate; simpl.
  { by apply elem_of_nil in Hin. }
  destruct st as [zi|].
  - unfold band_step. destruct (get_filter_coefficients band sr) as [b a].
    rewrite lfilter_nil.
    apply elem_of_cons in Hin as [[=]|Hin].
    destruct (IH sts ltac:(simpl in Hlen; lia) Hin) as (e & He & Hor & Hval).
    destruct (chain_run sr rest sts []) as [r sts']. simpl in *.
    exists e. split; [done|]. split; [done|].
    intros Hsr Hall. apply Hval; [done | by inversion Hall].
  - pose proof (lfilter_zi_valid sr band) as Hzi.
    unfold band_step. destruct (get_filter_coefficients band sr) as [b a].
    destruct (lfilter_zi b a) as [[z0 z1]|e] eqn:Hz; simpl.
    + exists IndexError. auto.
    + exists e. split; [done|].
      assert (He : e = LinAlgError).
      { revert Hz. clear. destruct b as [[b0 b1] b2], a as [[a0 a1] a2].
        unfold lfilter_zi. simpl.
        case_decide; by intros [= <-]. }
      split; [by right|]. intros Hsr Hall.
      inversion Hall as [|? ? Hb _]; subst.
      destruct (Hzi Hsr Hb) as [zi [=]].
Qed.

Opaque lfilter_zi.

(** X1. On a chain of bands inside the domain, aligned with its states,
    every non-empty block is processed: the output has the length of the
    input, the bands stay, and afterwards every band is Active. *)
Theorem process_block_valid_chain p x :
  0 < sample_rate p ->
  Forall (valid_band (sample_rate p)) (bands p) ->
  length (bands p) = length (filter_states p) ->
  x ≠ [] ->
  exists y p',
    process_block p x = (Ok y, p') /\
    length y = length x /\
    sample_rate p' = sample_rate p /\
    bands p' = bands p /\
    length (filter_states p') = length (bands p') /\
    Forall is_Some (filter_states p').
Proof.
  intros Hsr Hval Hlen Hx.
  destruct (process_block_returns p x Hsr Hval Hlen (or_introl Hx))
    as (y & p' & Hrun & Hy).
  exists y, p'. split; [done|]. split; [done|].
  pose proof (process_block_frame p x) as (Hs & Hb & Hl).
  rewrite Hrun in Hs, Hb, Hl. simpl in *.
  split; [done|]. split; [done|]. split; [congruence|].
  revert Hrun. rewrite process_block_chain_run. case_decide as Hnil.
  - intros [= _ <-]. rewrite Hnil in Hlen.
    symmetry in Hlen. apply length_zero_iff_nil in Hlen. by rewrite Hlen.
  - destruct (chain_run _ _ _ x) as [r sts] eqn:Hc.
    intros [= -> <-]. simpl. by eapply chain_run_active.
Qed.

Lemma process_block_valid_chain_witness :
  0 < sample_rate example_chain /\
  Forall (valid_band (sample_rate example_chain)) (bands example_chain) /\
  length (bands example_chain) = length (filter_states example_chain) /\
  [1; 2] ≠ [] /\
  exists y p',
    process_block example_chain [1; 2] = (Ok y, p') /\
    length y = length [1; 2] /\
    sample_rate p' = sample_rate example_chain /\
    bands p' = bands example_chain /\
    length (filter_states p') = length (bands p') /\
    Forall is_Some (filter_states p').
Proof.
  destruct example_chain_valid as (H1 & H2 & H3).
  assert (H4 : [1; 2] ≠ []) by discriminate.
  split; [exact H1|]. split; [exact H2|]. split; [exact H3|].
  split; [exact H4|].
  exact (process_block_valid_chain example_chain [1; 2] H1 H2 H3 H4).
Defined.

(** X2. The empty block on an aligned chain. The sample rate and the
    bands are kept. Without bands the block is returned and the
    processor is as it was. With bands that are all Active the block is
    accepted and an empty block returned. When a band is Uninitialized
    and the chain is inside the domain the call raises [IndexError];
    and when every band is Uninitialized the processor is left as it
    was. *)
Theorem process_block_empty_block p :
  length (bands p) = length (filter_states p) ->
  sample_rate (process_block p []).2 = sample_rate p /\
  bands (process_block p []).2 = bands p /\
  (bands p = [] -> process_block p [] = (Ok [], p)) /\
  (Forall is_Some (filter_states p) -> (process_block p []).1 = Ok []) /\
  (None ∈ filter_states p ->
   0 < sample_rate p -> Forall (valid_band (sample_rate p)) (bands p) ->
   (process_block p []).1 = Raise IndexError) /\
  (Forall (fun st => st = None) (filter_states p) ->
   (process_block p []).2 = p).
Proof.
  intros Hlen.
  pose proof (process_block_frame p []) as (Hsr & Hb & _).
  split; [done|]. split; [done|]. split; [|split; [|split]].
  - intros Hnil. apply process_block_no_bands. by rewrite Hnil.
  - intros Hact. by rewrite process_block_empty_active.
  - intros Hin Hpos Hval. rewrite process_block_chain_run.
    case_decide as Hnil.
    + rewrite Hnil in Hlen. destruct (filter_states p); [|done].
      by apply elem_of_nil in Hin.
    + destruct (chain_run_nil_error (sample_rate p) _ _ Hlen Hin)
        as (e & He & _ & Hidx).
      rewrite (Hidx Hpos Hval) in He.
      by destruct (chain_run _ _ _ _) as [r sts].
  - intros _. rewrite process_block_chain_run. case_decide; [done|].
    pose proof (chain_run_nil_states (sample_rate p) (bands p)
                  (filter_states p)) as Hs.
    destruct (chain_run _ _ _ _) as [r sts]. simpl in *. subst.
    by destruct p.
Qed.

Lemma process_block_empty_block_witness :
  length (bands example_chain) = length (filter_states example_chain) /\
  (process_block example_chain []).1 = Raise IndexError /\
  (process_block example_chain []).2 = example_chain.
Proof.
  assert (H : length (bands example_chain)
              = length (filter_states example_chain)) by reflexivity.
  split; [exact H|].
  pose proof (process_block_empty_block example_chain H)
    as (_ & _ & _ & _ & Hraise & Hkeep).
  destruct example_chain_valid as (Hsr & Hval & _).
  split.
  - apply Hraise; [|exact Hsr|exact Hval].
    apply elem_of_cons. by left.
  - apply Hkeep. by repeat constructor.
Defined.

(** X3. [reset_states] forgets what was processed: resetting after a
    block gives the processor that resetting before it gives, so the
    next block is processed as the first block of a stream. *)
Theorem reset_states_forgets p x y :
  reset_states (process_block p x).2 = reset_states p /\
  process_block (reset_states (process_block p x).2) y
  = process_block (reset_states p) y /\
  reset_states (reset_states p) = reset_states p.
Proof.
  assert (H : reset_states (process_block p x).2 = reset_states p).
  { unfold reset_states.
    by destruct (process_block_frame p x) as (-> & -> & _). }
  split; [done|]. split; [by rewrite H | done].
Qed.

(** X4. A band appended to an aligned chain works on what the old chain
    delivers: the extended chain returns what the new band alone returns
    on the old chain's output, and raises what the old chain raises. *)
Theorem process_block_cascade p f g q x :
  length (bands p) = length (filter_states p) ->
  match process_block p x with
  | (Ok y, _) =>
      (process_block (add_band p f g q) x).1
      = (process_block (add_band (new_AudioProcessor (sample_rate p)) f g q) y).1
  | (Raise e, _) => (process_block (add_band p f g q) x).1 = Raise e
  end.
Proof.
  intros Hlen. rewrite (process_block_chain_run p x).
  assert (Hext : forall z,
            process_block (add_band p f g q) z
            = let '(r, states) :=
                chain_run (sample_rate p) (bands p ++ [mkBand f g q])
                  (filter_states p ++ [None]) z in
              (r, mkProcessor (sample_rate p) (bands p ++ [mkBand f g q]) states)).
  { intros z. rewrite process_block_chain_run. simpl.
    rewrite length_app. simpl. by rewrite decide_False by lia. }
  destruct (decide (length (bands p) = 0%nat)) as [Hnil|Hnil].
  - f_equal. f_equal. unfold add_band. simpl.
    rewrite Hnil in Hlen. symmetry in Hlen.
    apply length_zero_iff_nil in Hnil, Hlen. by rewrite Hnil, Hlen.
  - rewrite Hext, chain_run_snoc by done.
    destruct (chain_run _ _ _ x) as [[y|e] sts]; [|done].
    rewrite process_block_chain_run. simpl.
    by destruct (band_step _ _ None y) as [[y' zf]|e].
Qed.

Lemma process_block_cascade_witness :
  length (bands example_chain) = length (filter_states example_chain) /\
  match process_block example_chain [1; 2] with
  | (Ok y, _) =>
      (process_block (add_band example_chain 4000 (-3) 2) [1; 2]).1
      = (process_block
           (add_band (new_AudioProcessor (sample_rate example_chain)) 4000 (-3) 2)
           y).1
  | (Raise e, _) =>
      (process_block (add_band example_chain 4000 (-3) 2) [1; 2]).1 = Raise e
  end.
Proof.
  assert (H : length (bands example_chain)
              = length (filter_states example_chain)) by reflexivity.
  split; [exact H|].
  exact (process_block_cascade example_chain 4000 (-3) 2 [1; 2] H).
Defined.

(** ** Flat bands *)

Transparent get_filter_coefficients lfilter_zi lfilter.

(** The coefficients of a band at 0 dB inside the domain: [b] and [a]
    are the same triple, and its denominator has no zero on the unit
    circle. *)
Lemma zero_gain_coefficients sr band :
  0 < sr -> valid_band sr band -> gain_db band = 0 ->
  exists a1 a2,
    get_filter_coefficients band sr = ((1, a1, a2), (1, a1, a2)) /\
    a2 < 1 /\ 0 < 1 + a1 + a2 /\ 0 < 1 - a1 + a2.
Proof.
  intros Hsr Hband Hg.
  pose proof (valid_alpha sr _ Hsr Hband) as Halpha.
  pose proof (valid_cos sr _ Hsr Hband) as Hcos.
  pose proof (valid_w0 sr _ Hsr Hband) as [Hw0 Hw1].
  unfold get_filter_coefficients. rewrite Hg.
  set (w0 := 2 * PI * frequency band / sr) in *.
  set (alpha := sin w0 / (2 * q_factor band)) in *.
  assert (Hcos' : -1 < cos w0).
  { pose proof PI_RGT_0. rewrite <- cos_PI. apply cos_decreasing_1; lra. }
  replace (0 / 20) with 0 by field.
  rewrite Rpower_O by lra.
  replace (alpha * 1) with alpha by ring.
  replace (alpha / 1) with alpha by field.
  set (a0 := 1 + alpha).
  assert (Ha0 : 0 < a0) by (subst a0; lra).
  replace (a0 / a0) with 1 by (field; lra).
  exists (-2 * cos w0 / a0), ((1 - alpha) / a0).
  split; [done|]. split; [|split].
  - apply (Rmult_lt_reg_r a0); [done|].
    unfold Rdiv. rewrite Rmult_assoc, Rinv_l by lra. subst a0. lra.
  - replace (1 + -2 * cos w0 / a0 + (1 - alpha) / a0)
      with ((2 - 2 * cos w0) / a0) by (subst a0; field; lra).
    apply Rdiv_lt_0_compat; lra.
  - replace (1 - -2 * cos w0 / a0 + (1 - alpha) / a0)
      with ((2 + 2 * cos w0) / a0) by (subst a0; field; lra).
    apply Rdiv_lt_0_compat; lra.
Qed.

Lemma equal_taps_lfilter_zi a1 a2 :
  0 < 1 + a1 + a2 -> lfilter_zi (1, a1, a2) (1, a1, a2) = Ok (0, 0).
Proof.
  intros Hdet. unfold lfilter_zi, normalize_taps.
  rewrite decide_False.
  - f_equal. f_equal; field; lra.
  - replace ((1 + a1 / 1) * 1 - -1 * (a2 / 1)) with (1 + a1 + a2) by field.
    lra.
Qed.

Lemma equal_taps_lfilter a1 a2 x :
  lfilter (1, a1, a2) (1, a1, a2) x (0, 0) = (x, (0, 0)).
Proof. unfold lfilter, normalize_taps. apply lfilter_loop_identity. Qed.

Opaque get_filter_coefficients lfilter_zi lfilter.

Lemma zero_gain_band_step sr band st x :
  0 < sr -> valid_band sr band -> gain_db band = 0 ->
  (st = None /\ x ≠ []) \/ st = Some (0, 0) ->
  band_step sr band st x = Ok (x, (0, 0)).
Proof.
  intros Hsr Hband Hg Hst.
  destruct (zero_gain_coefficients sr band Hsr Hband Hg)
    as (a1 & a2 & Hc & _ & Hp & _).
  unfold band_step. rewrite Hc.
  destruct Hst as [[-> Hx] | ->].
  - rewrite equal_taps_lfilter_zi by done.
    destruct (index_head_ok x Hx) as [x0 ->]. simpl.
    replace (0 * x0) with 0 by ring. by rewrite equal_taps_lfilter.
  - by rewrite equal_taps_lfilter.
Qed.

Lemma zero_gain_chain_run sr bs : forall states x,
  0 < sr -> Forall (fun band => valid_band sr band /\ gain_db band = 0) bs ->
  length bs = length states ->
  Forall (fun st => st = None \/ st = Some (0, 0)) states ->
  x ≠ [] \/ Forall is_Some states ->
  chain_run sr bs states x = (Ok x, replicate (length bs) (Some (0, 0))).
Proof.
  induction bs as [|band rest IH]; intros states x Hsr Hall Hlen Hsts Hne;
    destruct states as [|st sts]; try discriminate; simpl; [done|].
  inversion Hall as [|? ? [Hb Hg] Hrest]; subst.
  inversion Hsts as [|? ? Hst Hsts']; subst.
  rewrite (zero_gain_band_step sr band st x Hsr Hb Hg).
  - rewrite (IH sts x Hsr Hrest); [done | simpl in Hlen; lia | done |].
    destruct Hne as [?|H]; [by left | right; by inversion H].
  - destruct Hst as [-> | ->]; [left | by right].
    split; [done|]. destruct Hne as [?|H]; [done|].
    inversion H as [|? ? [? Hsome] _]. discriminate Hsome.
Qed.

(** X5. A chain whose bands are all at 0 dB (inside the domain) is
    transparent: started fresh or after a reset it returns every
    non-empty block unchanged, every delay line stays zero, and every
    following non-empty block comes back unchanged too, the delay lines
    still zero; a following empty block is returned as the empty
    block. *)
Theorem flat_chain_is_transparent p x x' :
  0 < sample_rate p ->
  Forall (fun band => valid_band (sample_rate p) band /\ gain_db band = 0)
    (bands p) ->
  filter_states p = replicate (length (bands p)) None ->
  x ≠ [] ->
  exists p',
    process_block p x = (Ok x, p') /\
    (bands p ≠ [] ->
     filter_states p' = replicate (length (bands p)) (Some (0, 0))) /\
    (x' ≠ [] -> process_block p' x' = (Ok x', p')) /\
    (process_block p' []).1 = Ok [].
Proof.
  intros Hsr Hall Hst Hx.
  destruct (decide (length (bands p) = 0%nat)) as [Hnil|Hnil].
  - exists p. rewrite !process_block_no_bands by done.
    split; [done|]. split; [|done].
    intros Hne. by apply length_zero_iff_nil in Hnil.
  - exists (mkProcessor (sample_rate p) (bands p)
              (replicate (length (bands p)) (Some (0, 0)))).
    rewrite !process_block_chain_run. simpl.
    rewrite !decide_False by done.
    assert (Hnext : forall w,
              chain_run (sample_rate p) (bands p)
                (replicate (length (bands p)) (Some (0, 0))) w
              = (Ok w, replicate (length (bands p)) (Some (0, 0)))).
    { intros w. rewrite zero_gain_chain_run; try done.
      - by rewrite length_replicate.
      - apply Forall_replicate. by right.
      - right. apply Forall_replicate. by eexists. }
    rewrite (zero_gain_chain_run _ _ (filter_states p) x); try done.
    + rewrite !Hnext. done.
    + by rewrite Hst, length_replicate.
    + rewrite Hst. apply Forall_replicate. by left.
    + by left.
Qed.

Lemma flat_chain_is_transparent_witness :
  0 < sample_rate flat_chain /\
  Forall (fun band => valid_band (sample_rate flat_chain) band
                      /\ gain_db band = 0) (bands flat_chain) /\
  filter_states flat_chain = replicate (length (bands flat_chain)) None /\
  [1; 2] ≠ [] /\
  exists p',
    process_block flat_chain [1; 2] = (Ok [1; 2], p') /\
    (bands flat_chain ≠ [] ->
     filter_states p' = replicate (length (bands flat_chain)) (Some (0, 0))) /\
    ([3] ≠ [] -> process_block p' [3] = (Ok [3], p')) /\
    (process_block p' []).1 = Ok [].
Proof.
  assert (H1 : 0 < sample_rate flat_chain) by (simpl; lra).
  assert (H2 : Forall (fun band => valid_band (sample_rate flat_chain) band
                                   /\ gain_db band = 0) (bands flat_chain)).
  { repeat constructor; simpl; lra. }
  assert (H3 : filter_states flat_chain
               = replicate (length (bands flat_chain)) None) by reflexivity.
  assert (H4 : [1; 2] ≠ []) by discriminate.
  split; [exact H1|]. split; [exact H2|]. split; [exact H3|].
  split; [exact H4|].
  exact (flat_chain_is_transparent flat_chain [1; 2] [3] H1 H2 H3 H4).
Defined.

(** ** The frequency response of a cascade *)

Transparent get_filter_coefficients.

Lemma Cmul_one_l u : Cmul Cone u = u.
Proof. destruct u as [re im]. unfold Cmul, Cone. simpl. f_equal; ring. Qed.

Lemma Cabs_one : Cabs Cone = 1.
Proof.
  unfold Cabs, Cone. simpl.
  replace (1 * 1 + 0 * 0) with 1 by ring. apply sqrt_1.
Qed.

Lemma Cabs_mul u v : Cabs (Cmul u v) = Cabs u * Cabs v.
Proof.
  unfold Cabs, Cmul. simpl. rewrite <- sqrt_mult by nra. f_equal. ring.
Qed.

Lemma Cabs_div_pos u v :
  Re u * Re u + Im u * Im u ≠ 0 -> Re v * Re v + Im v * Im v ≠ 0 ->
  0 < Cabs (Cdiv u v).
Proof.
  intros Hu Hv. unfold Cabs, Cdiv. simpl. apply sqrt_lt_R0.
  set (d := Re v * Re v + Im v * Im v) in *.
  replace ((Re u * Re v + Im u * Im v) / d * ((Re u * Re v + Im u * Im v) / d)
           + (Im u * Re v - Re u * Im v) / d * ((Im u * Re v - Re u * Im v) / d))
    with ((Re u * Re u + Im u * Im u) / d) by (subst d; field; done).
  apply Rdiv_lt_0_compat; [nra | subst d; nra].
Qed.

(** A second-order polynomial [c0 + c1 z + c2 z^2] with [c2 < c0] and
    positive values at [z = 1] and [z = -1] has no zero on the unit
    circle. *)
Lemma poly_nonzero c0 c1 c2 c s :
  c * c + s * s = 1 -> c2 < c0 -> 0 < c0 + c1 + c2 -> 0 < c0 - c1 + c2 ->
  let re := c0 + (c1 * c + c2 * (c * c - - s * - s)) in
  let im := 0 + (c1 * - s + c2 * (c * - s + - s * c)) in
  re * re + im * im ≠ 0.
Proof.
  intros Hcs Hc2 Hp Hm re im Hz.
  assert (Hre : re = 0) by nra.
  assert (Him : im = 0) by nra.
  subst re im.
  assert (Hs : s * (c1 + 2 * c2 * c) = 0) by lra.
  apply Rmult_integral in Hs as [Hs|Hs].
  - subst s. assert (Hc : (c - 1) * (c + 1) = 0) by lra.
    apply Rmult_integral in Hc as [Hc|Hc].
    + replace c with 1 in Hre by lra. lra.
    + replace c with (-1) in Hre by lra. lra.
  - assert (c0 - c2 + c * (c1 + 2 * c2 * c) = 0) by nra.
    rewrite Hs in *. lra.
Qed.

(** The taps of a band inside the domain: numerator and denominator
    both keep away from zero on the unit circle. *)
Lemma valid_coefficients_shape sr band :
  0 < sr -> valid_band sr band ->
  exists b0 b1 b2 a1 a2,
    get_filter_coefficients band sr = ((b0, b1, b2), (1, a1, a2)) /\
    b2 < b0 /\ 0 < b0 + b1 + b2 /\ 0 < b0 - b1 + b2 /\
    a2 < 1 /\ 0 < 1 + a1 + a2 /\ 0 < 1 - a1 + a2.
Proof.
  intros Hsr Hband.
  pose proof (valid_alpha sr _ Hsr Hband) as Halpha.
  pose proof (valid_gain_linear band) as Hgain.
  pose proof (valid_cos sr _ Hsr Hband) as Hcos.
  pose proof (valid_w0 sr _ Hsr Hband) as [Hw0 Hw1].
  unfold get_filter_coefficients.
  set (w0 := 2 * PI * frequency band / sr) in *.
  set (alpha := sin w0 / (2 * q_factor band)) in *.
  set (g := Rpower 10 (gain_db band / 20)) in *.
  assert (Hcos' : -1 < cos w0).
  { pose proof PI_RGT_0. rewrite <- cos_PI. apply cos_decreasing_1; lra. }
  assert (Hu : 0 < alpha / g) by (by apply Rdiv_lt_0_compat).
  assert (Hv : 0 < alpha * g) by (by apply Rmult_lt_0_compat).
  set (u := alpha / g) in *. set (v := alpha * g) in *.
  set (a0 := 1 + u).
  assert (Ha0 : 0 < a0) by (subst a0; lra).
  eexists _, _, _, _, _. split; [reflexivity|].
  assert (Hdiv : forall t1 t2, t1 < t2 -> t1 / a0 < t2 / a0).
  { intros t1 t2 Ht. unfold Rdiv. apply Rmult_lt_compat_r; [|done].
    by apply Rinv_0_lt_compat. }
  repeat split.
  - apply Hdiv. lra.
  - replace ((1 + v) / a0 + -2 * cos w0 / a0 + (1 - v) / a0)
      with ((2 - 2 * cos w0) / a0) by (field; lra).
    apply Rdiv_lt_0_compat; lra.
  - replace ((1 + v) / a0 - -2 * cos w0 / a0 + (1 - v) / a0)
      with ((2 + 2 * cos w0) / a0) by (field; lra).
    apply Rdiv_lt_0_compat; lra.
  - apply (Rmult_lt_reg_r a0); [done|].
    unfold Rdiv. rewrite Rmult_assoc, Rinv_l by lra. subst a0. lra.
  - replace (1 + -2 * cos w0 / a0 + (1 - u) / a0)
      with ((2 - 2 * cos w0) / a0) by (subst a0; field; lra).
    apply Rdiv_lt_0_compat; lra.
  - replace (1 - -2 * cos w0 / a0 + (1 - u) / a0)
      with ((2 + 2 * cos w0) / a0) by (subst a0; field; lra).
    apply Rdiv_lt_0_compat; lra.
Qed.

Opaque get_filter_coefficients.

Lemma freqz_length b a frequencies fs :
  length (freqz b a frequencies fs) = length frequencies.
Proof.
  destruct b as [[b0 b1] b2], a as [[a0 a1] a2].
  unfold freqz. by rewrite length_fmap.
Qed.

Lemma valid_band_response_pos sr band frequencies :
  0 < sr -> valid_band sr band ->
  Forall (fun h => 0 < Cabs h)
    (let '(b, a) := get_filter_coefficients band sr in
     freqz b a frequencies sr).
Proof.
  intros Hsr Hband.
  destruct (valid_coefficients_shape sr band Hsr Hband)
    as (b0 & b1 & b2 & a1 & a2 & -> & Hb2 & Hbp & Hbm & Ha2 & Hap & Ham).
  unfold freqz. apply Forall_fmap, Forall_forall. intros f _. simpl.
  assert (Hsc : cos (2 * PI * f / sr) * cos (2 * PI * f / sr)
                + sin (2 * PI * f / sr) * sin (2 * PI * f / sr) = 1).
  { pose proof (sin2_cos2 (2 * PI * f / sr)) as H. unfold Rsqr in H. lra. }
  apply Cabs_div_pos; simpl; by apply poly_nonzero.
Qed.

Lemma flat_band_response sr band frequencies :
  0 < sr -> valid_band sr band -> gain_db band = 0 ->
  (let '(b, a) := get_filter_coefficients band sr in
   freqz b a frequencies sr) = replicate (length frequencies) Cone.
Proof.
  intros Hsr Hband Hg.
  destruct (zero_gain_coefficients sr band Hsr Hband Hg)
    as (a1 & a2 & -> & Ha2 & Hp & Hm).
  unfold freqz. apply const_fmap. intros i f _. apply Cdiv_self. simpl.
  apply denominator_nonzero; try done.
  pose proof (sin2_cos2 (2 * PI * f / sr)) as H. unfold Rsqr in H. lra.
Qed.

Lemma response_grid_ok sr frequencies :
  exists freqs, response_grid sr frequencies = Ok freqs.
Proof.
  destruct frequencies as [fr|]; simpl; [eauto|].
  unfold logspace, linspace. rewrite decide_False by lia. eauto.
Qed.

Lemma get_frequency_response_total p frequencies freqs :
  response_grid (sample_rate p) frequencies = Ok freqs ->
  get_frequency_response p frequencies
  = (Ok (freqs,
         (fun u => 20 * log10 (Cabs u))
           <$> total_response (sample_rate p) (bands p) freqs,
         Cangle <$> total_response (sample_rate p) (bands p) freqs), p).
Proof.
  unfold get_frequency_response, response_grid. intros ->. reflexivity.
Qed.

Lemma total_response_len sr bs freqs :
  length (total_response sr bs freqs) = length freqs.
Proof.
  unfold total_response.
  apply (total_response_length
           (fun band => let '(b, a) := get_filter_coefficients band sr in
                        freqz b a freqs sr) (length freqs)).
  - intros band. destruct (get_filter_coefficients band sr) as [b a].
    apply freqz_length.
  - by rewrite length_replicate.
Qed.

Lemma flat_total_response sr bs freqs :
  Forall (fun band => 0 < sr /\ valid_band sr band /\ gain_db band = 0) bs ->
  total_response sr bs freqs = replicate (length freqs) Cone.
Proof.
  unfold total_response. intros Hall.
  assert (Hfold : forall total,
            total = replicate (length freqs) Cone ->
            foldl (fun total band =>
                     zip_with Cmul total
                       (let '(b, a) := get_filter_coefficients band sr in
                        freqz b a freqs sr)) total bs
            = replicate (length freqs) Cone).
  { induction Hall as [|band rest (Hsr & Hb & Hg) _ IH]; intros total ->;
      simpl; [done|].
    apply IH. rewrite flat_band_response by done.
    rewrite zip_with_replicate. f_equal. apply Cmul_one_l. }
  by apply Hfold.
Qed.

(** X6. The response of a chain without bands, or whose bands are all at
    0 dB inside the domain, is flat: 0 dB and zero phase at every
    frequency of the grid, the explicit one or the default one. *)
Theorem flat_frequency_response p frequencies :
  Forall (fun band => 0 < sample_rate p /\ valid_band (sample_rate p) band
                      /\ gain_db band = 0) (bands p) ->
  exists freqs,
    get_frequency_response p frequencies
    = (Ok (freqs, replicate (length freqs) 0, replicate (length freqs) 0), p) /\
    (forall grid, frequencies = Some grid -> freqs = grid).
Proof.
  intros Hall.
  destruct (response_grid_ok (sample_rate p) frequencies) as [freqs Hgrid].
  exists freqs. split.
  - rewrite (get_frequency_response_total p frequencies freqs Hgrid).
    rewrite flat_total_response by done. rewrite !fmap_replicate.
    assert (Hmag : 20 * log10 (Cabs Cone) = 0).
    { rewrite Cabs_one. unfold log10. rewrite ln_1. field.
      apply Rgt_not_eq. rewrite <- ln_1. apply ln_increasing; lra. }
    assert (Hphase : Cangle Cone = 0).
    { unfold Cangle, arctan2, Cone. simpl.
      destruct (Rlt_dec 0 1) as [_|H]; [|lra].
      replace (0 / 1) with 0 by field. apply atan_0. }
    by rewrite Hmag, Hphase.
  - intros grid ->. simpl in Hgrid. by injection Hgrid.
Qed.

Lemma flat_frequency_response_witness :
  Forall (fun band => 0 < sample_rate flat_chain
                      /\ valid_band (sample_rate flat_chain) band
                      /\ gain_db band = 0) (bands flat_chain) /\
  exists freqs,
    get_frequency_response flat_chain (Some [100; 1000])
    = (Ok (freqs, replicate (length freqs) 0, replicate (length freqs) 0),
       flat_chain) /\
    (forall grid, Some [100; 1000] = Some grid -> freqs = grid).
Proof.
  assert (H : Forall (fun band => 0 < sample_rate flat_chain
                                  /\ valid_band (sample_rate flat_chain) band
                                  /\ gain_db band = 0) (bands flat_chain)).
  { repeat constructor; simpl; lra. }
  split; [exact H|].
  exact (flat_frequency_response flat_chain (Some [100; 1000]) H).
Defined.

Lemma total_response_pos sr bs freqs :
  0 < sr -> Forall (valid_band sr) bs ->
  Forall (fun h => 0 < Cabs h) (total_response sr bs freqs).
Proof.
  intros Hsr Hall. unfold total_response.
  assert (Hfold : forall total,
            Forall (fun h => 0 < Cabs h) total ->
            Forall (fun h => 0 < Cabs h)
              (foldl (fun total band =>
                        zip_with Cmul total
                          (let '(b, a) := get_filter_coefficients band sr in
                           freqz b a freqs sr)) total bs)).
  { induction Hall as [|band rest Hb _ IH]; intros total Ht; simpl; [done|].
    apply IH.
    pose proof (valid_band_response_pos sr band freqs Hsr Hb) as Hh.
    revert Hh. generalize (let '(b, a) := get_filter_coefficients band sr in
                           freqz b a freqs sr). intros h Hh.
    revert h Hh. induction Ht as [|t total Hpos _ IHt]; intros h Hh;
      [constructor|].
    destruct Hh as [|h0 h Hh0 Hh]; simpl; constructor.
    - rewrite Cabs_mul. by apply Rmult_lt_0_compat.
    - by apply IHt. }
  apply Hfold, Forall_replicate. rewrite Cabs_one. lra.
Qed.

Lemma log10_mult x y : 0 < x -> 0 < y -> log10 (x * y) = log10 x + log10 y.
Proof.
  intros Hx Hy. unfold log10. rewrite ln_mult by done. field.
  apply Rgt_not_eq. rewrite <- ln_1. apply ln_increasing; lra.
Qed.

(** X7. Gains in decibels add along the cascade: for bands inside the
    domain, the magnitude response of a chain with one more band is,
    frequency by frequency, the magnitude response of the chain plus
    that of the new band alone. *)
Theorem magnitude_db_adds p f g q frequencies :
  0 < sample_rate p ->
  Forall (valid_band (sample_rate p)) (bands p) ->
  valid_band (sample_rate p) (mkBand f g q) ->
  exists freqs mag phase mag1 phase1 phase',
    get_frequency_response p frequencies = (Ok (freqs, mag, phase), p) /\
    get_frequency_response (add_band (new_AudioProcessor (sample_rate p)) f g q)
      frequencies
    = (Ok (freqs, mag1, phase1),
       add_band (new_AudioProcessor (sample_rate p)) f g q) /\
    get_frequency_response (add_band p f g q) frequencies
    = (Ok (freqs, zip_with Rplus mag mag1, phase'), add_band p f g q).
Proof.
  intros Hsr Hall Hnew. set (sr := sample_rate p) in *.
  destruct (response_grid_ok sr frequencies) as [freqs Hgrid].
  eexists freqs, _, _, _, _, _.
  split; [by apply get_frequency_response_total|].
  split; [by apply get_frequency_response_total|].
  rewrite (get_frequency_response_total (add_band p f g q) frequencies freqs)
    by done.
  do 3 f_equal. simpl. fold sr.
  pose proof (total_response_pos sr (bands p) freqs Hsr Hall) as Hpos.
  pose proof (valid_band_response_pos sr (mkBand f g q) freqs Hsr Hnew) as Hh.
  pose proof (total_response_len sr (bands p) freqs) as Hlen.
  unfold total_response in *. rewrite foldl_app. simpl.
  revert Hh. generalize (let '(b, a) := get_filter_coefficients
                                         (mkBand f g q) sr in
                         freqz b a freqs sr). intros h Hh.
  assert (Hone : zip_with Cmul (replicate (length freqs) Cone) h
                 = take (length freqs) h).
  { clear. revert h. induction (length freqs) as [|n IH]; intros [|h0 h];
      simpl; try done. by rewrite Cmul_one_l, IH. }
  rewrite Hone. clear Hone.
  revert Hpos Hlen.
  generalize (foldl (fun total band =>
                       zip_with Cmul total
                         (let '(b, a) := get_filter_coefficients band sr in
                          freqz b a freqs sr))
                (replicate (length freqs) Cone) (bands p)).
  intros total Hpos Hlen. rewrite <- Hlen. clear Hlen. f_equal.
  revert h Hh. induction Hpos as [|t total Ht _ IH]; intros h Hh; [done|].
  destruct Hh as [|h0 h Hh0 Hh]; [done|]. simpl.
  rewrite Cabs_mul, log10_mult by done. rewrite IH by done. f_equal. ring.
Qed.

Lemma magnitude_db_adds_witness :
  0 < sample_rate example_chain /\
  Forall (valid_band (sample_rate example_chain)) (bands example_chain) /\
  valid_band (sample_rate example_chain) (mkBand 4000 (-3) 2) /\
  exists freqs mag phase mag1 phase1 phase',
    get_frequency_response example_chain (Some [100; 1000])
    = (Ok (freqs, mag, phase), example_chain) /\
    get_frequency_response
      (add_band (new_AudioProcessor (sample_rate example_chain)) 4000 (-3) 2)
      (Some [100; 1000])
    = (Ok (freqs, mag1, phase1),
       add_band (new_AudioProcessor (sample_rate example_chain)) 4000 (-3) 2) /\
    get_frequency_response (add_band example_chain 4000 (-3) 2)
      (Some [100; 1000])
    = (Ok (freqs, zip_with Rplus mag mag1, phase'),
       add_band example_chain 4000 (-3) 2).
Proof.
  destruct example_chain_valid as (H1 & H2 & _).
  assert (H3 : valid_band (sample_rate example_chain) (mkBand 4000 (-3) 2))
    by (repeat split; simpl; lra).
  split; [exact H1|]. split; [exact H2|]. split; [exact H3|].
  exact (magnitude_db_adds example_chain 4000 (-3) 2 (Some [100; 1000])
           H1 H2 H3).
Defined.

(** ** More on normalization *)

Lemma np_max_abs_scaled audio_data peak scale :
  np_max (Rabs <$> audio_data) = Ok peak -> 0 <= scale ->
  np_max (Rabs <$> ((fun x => x * scale) <$> audio_data)) = Ok (peak * scale).
Proof.
  intros Hpeak Hs.
  assert (Habs : Rabs <$> ((fun x => x * scale) <$> audio_data)
                 = (fun v => v * scale) <$> (Rabs <$> audio_data)).
  { rewrite <- !list_fmap_compose. apply list_fmap_ext. intros _ x _. simpl.
    by rewrite Rabs_mult, (Rabs_pos_eq scale). }
  rewrite Habs. destruct audio_data as [|x xs]; [done|].
  simpl in *. injection Hpeak as Hpeak.
  by rewrite foldl_Rmax_scale, Hpeak.
Qed.

(** X8. [normalize_audio] on a non-empty block keeps the length, puts
    every sample within the target level [10^(target/20)], and is
    idempotent: normalizing its output again changes nothing. *)
Theorem normalize_audio_idempotent audio_data target_level :
  audio_data ≠ [] ->
  exists out,
    normalize_audio audio_data target_level = Ok out /\
    length out = length audio_data /\
    (forall v, v ∈ out -> Rabs v <= Rpower 10 (target_level / 20)) /\
    normalize_audio out target_level = Ok out.
Proof.
  intros Hne.
  destruct (np_max_abs_spec audio_data Hne) as (peak & Hpeak & H0 & Hge & _).
  assert (HT : 0 < Rpower 10 (target_level / 20)) by apply exp_pos.
  unfold normalize_audio at 1. rewrite Hpeak. simpl.
  destruct (decide (peak = 0)) as [->|Hnz].
  - exists audio_data. split; [done|]. split; [done|]. split.
    + intros v Hv. specialize (Hge v Hv). lra.
    + unfold normalize_audio. rewrite Hpeak. simpl. by rewrite decide_True.
  - set (scale := Rpower 10 (target_level / 20) / peak).
    assert (Hscale : 0 < scale) by (apply Rdiv_lt_0_compat; lra).
    assert (HpT : peak * scale = Rpower 10 (target_level / 20))
      by (subst scale; field; done).
    eexists. split; [done|]. split; [by rewrite length_fmap|]. split.
    + intros v Hv. apply list_elem_of_fmap in Hv as (x & -> & Hx).
      rewrite Rabs_mult, (Rabs_pos_eq scale), <- HpT by lra.
      apply Rmult_le_compat_r; [lra | by apply Hge].
    + unfold normalize_audio.
      rewrite (np_max_abs_scaled audio_data peak scale) by (done || lra).
      simpl. rewrite HpT, decide_False by lra. f_equal.
      rewrite <- list_fmap_compose, <- (list_fmap_id ((fun x => x * scale) <$> _)).
      rewrite <- list_fmap_compose. apply list_fmap_ext. intros _ x _. simpl.
      field. lra.
Qed.

Lemma normalize_audio_idempotent_witness :
  [1; -2] ≠ [] /\
  exists out,
    normalize_audio [1; -2] (-3) = Ok out /\
    length out = length [1; -2] /\
    (forall v, v ∈ out -> Rabs v <= Rpower 10 (-3 / 20)) /\
    normalize_audio out (-3) = Ok out.
Proof.
  assert (H : [1; -2] ≠ []) by discriminate.
  split; [exact H | exact (normalize_audio_idempotent [1; -2] (-3) H)].
Defined.

(** ** More on fades *)

Lemma apply_fade_run h audio_data data fade_samples :
  h !! audio_data = Some data -> (1 <= fade_samples)%Z ->
  apply_fade h audio_data fade_samples
  = (Ok (fresh (dom h)),
     <[fresh (dom h) := spec_fade data (Z.to_nat fade_samples)]> h).
Proof.
  intros Hdata Hfs. unfold apply_fade. rewrite Hdata.
  rewrite !linspace_ok by lia.
  assert (Hm : Z.to_nat (Z.min fade_samples (Z.of_nat (length data)))
               = Nat.min (Z.to_nat fade_samples) (length data)) by lia.
  rewrite Hm. set (m := Nat.min (Z.to_nat fade_samples) (length data)).
  rewrite imul_slice_prefix by lia.
  set (faded_in := imap _ data).
  assert (Hlen : length faded_in = length data) by apply length_imap.
  rewrite <- Hlen.
  rewrite imul_slice_suffix; [|lia|].
  2: { intros H0. apply length_zero_iff_nil. lia. }
  f_equal. rewrite !insert_insert_eq. f_equal.
  unfold spec_fade. fold m. subst faded_in. by rewrite imap_imap_R, Hlen.
Qed.

(** X9. What a fade of [fade_samples >= 1] leaves in the new array, with
    [m = min(fade_samples, len)]: the length of the block; a first
    sample of 0; a last sample of 0 once [m >= 2]; the samples between
    the two ramps untouched; and for [m = 1] nothing but the first
    sample changed, the fade-out then being a factor 1. *)
Theorem apply_fade_shape h audio_data data fade_samples :
  h !! audio_data = Some data -> (1 <= fade_samples)%Z ->
  let len := length data in
  let m := Nat.min (Z.to_nat fade_samples) len in
  exists result out,
    apply_fade h audio_data fade_samples = (Ok result, <[result := out]> h) /\
    h !! result = None /\
    length out = len /\
    (data ≠ [] -> out !! 0%nat = Some 0) /\
    ((2 <= m)%nat -> out !! (len - 1)%nat = Some 0) /\
    (forall i x, (m <= i < len - m)%nat -> data !! i = Some x ->
                 out !! i = Some x) /\
    (m = 1%nat -> out = <[0%nat := 0]> data).
Proof.
  intros Hdata Hfs len m.
  exists (fresh (dom h)), (spec_fade data (Z.to_nat fade_samples)).
  split; [by apply apply_fade_run|].
  split; [apply not_elem_of_dom, is_fresh|].
  unfold spec_fade. fold len. fold m.
  split; [apply length_imap|]. split; [|split; [|split]].
  - intros Hne. rewrite list_lookup_imap.
    destruct data as [|x xs]; [done|]. simpl.
    assert (0 < m)%nat by (subst m len; simpl; lia).
    rewrite decide_True by done. rewrite ramp_start. f_equal. ring.
  - intros Hm. rewrite list_lookup_imap.
    destruct (lookup_lt_is_Some_2 data (len - 1)) as [x Hx];
      [subst len m; lia|].
    rewrite Hx. simpl. rewrite (decide_True (P := (len - m <= len - 1)%nat))
      by (subst m; lia).
    replace (len - 1 - (len - m))%nat with (m - 1)%nat by (subst m; lia).
    rewrite ramp_end by done. f_equal. ring.
  - intros i x Hi Hx. rewrite list_lookup_imap, Hx. simpl.
    rewrite !decide_False by lia. f_equal. ring.
  - intros Hm. apply list_eq. intros i. rewrite list_lookup_imap.
    destruct (decide (i = 0%nat)) as [->|Hi].
    + destruct data as [|x xs]; [subst m len; simpl in *; lia|]. simpl.
      rewrite decide_True by lia. rewrite ramp_start. f_equal. ring.
    + rewrite list_lookup_insert_ne by done.
      destruct (data !! i) as [x|] eqn:Hx; [|done]. simpl.
      apply lookup_lt_Some in Hx. fold len in Hx.
      rewrite decide_False by lia. rewrite Hm. f_equal.
      case_decide; [|ring].
      replace (i - (len - 1))%nat with 0%nat by lia.
      rewrite ramp_start. ring.
Qed.

Lemma apply_fade_shape_witness :
  ({[1%positive := [5; 6; 7; 8]]} : heap) !! 1%positive = Some [5; 6; 7; 8] /\
  (1 <= 1)%Z /\
  exists result out,
    apply_fade {[1%positive := [5; 6; 7; 8]]} 1%positive 1
    = (Ok result, <[result := out]> {[1%positive := [5; 6; 7; 8]]}) /\
    length out = 4%nat /\
    out = <[0%nat := 0]> [5; 6; 7; 8].
Proof.
  assert (H1 : ({[1%positive := [5; 6; 7; 8]]} : heap) !! 1%positive
               = Some [5; 6; 7; 8]) by apply lookup_singleton_eq.
  assert (H2 : (1 <= 1)%Z) by lia.
  split; [exact H1|]. split; [exact H2|].
  destruct (apply_fade_shape _ 1%positive [5; 6; 7; 8] 1 H1 H2)
    as (result & out & Hrun & _ & Hlen & _ & _ & _ & Hone).
  exists result, out. split; [exact Hrun|]. split; [exact Hlen|].
  exact (Hone eq_refl).
Defined.

(** X10. What [apply_fade] rejects: every negative [fade_samples], and
    [fade_samples = 0] on every non-empty block, raise [ValueError]; the
    empty block with [fade_samples = 0] gives a new empty array. In all
    cases, also the raising ones, the array that was passed is still in
    the store with its samples. *)
Theorem apply_fade_rejects h audio_data data fade_samples :
  h !! audio_data = Some data ->
  ((fade_samples < 0)%Z ->
   (apply_fade h audio_data fade_samples).1 = Raise ValueError) /\
  (fade_samples = 0%Z -> data ≠ [] ->
   (apply_fade h audio_data fade_samples).1 = Raise ValueError) /\
  (fade_samples = 0%Z -> data = [] ->
   apply_fade h audio_data fade_samples
   = (Ok (fresh (dom h)), <[fresh (dom h) := []]> h)) /\
  (apply_fade h audio_data fade_samples).2 !! audio_data = Some data.
Proof.
  intros Hdata. split; [|split; [|split]].
  - intros Hneg. unfold apply_fade. rewrite Hdata.
    by rewrite linspace_negative by lia.
  - intros -> Hne. unfold apply_fade. rewrite Hdata.
    rewrite !linspace_ok by lia.
    replace (Z.to_nat (Z.min 0 (Z.of_nat (length data)))) with 0%nat by lia.
    destruct data as [|x xs]; [done|]. reflexivity.
  - intros -> ->. unfold apply_fade. rewrite Hdata.
    rewrite !linspace_ok by (simpl; lia). simpl.
    by rewrite !insert_insert_eq.
  - by apply apply_fade_input_untouched.
Qed.

Lemma apply_fade_rejects_witness :
  ({[1%positive := [5; 6]]} : heap) !! 1%positive = Some [5; 6] /\
  (apply_fade {[1%positive := [5; 6]]} 1%positive 0).1 = Raise ValueError /\
  (apply_fade {[1%positive := [5; 6]]} 1%positive 0).2 !! 1%positive
  = Some [5; 6].
Proof.
  assert (H1 : ({[1%positive := [5; 6]]} : heap) !! 1%positive = Some [5; 6])
    by apply lookup_singleton_eq.
  split; [exact H1|].
  destruct (apply_fade_rejects _ 1%positive [5; 6] 0 H1)
    as (_ & Hzero & _ & Hkeep).
  split; [apply Hzero; [reflexivity | discriminate] | exact Hkeep].
Defined.

(** * Properties of the SoundEqualizer *)

Lemma foldl_add_band {A} (fr gn qf : A -> R) l : forall p,
  foldl (fun p x => add_band p (fr x) (gn x) (qf x)) p l
  = mkProcessor (sample_rate p)
      (bands p ++ ((fun x => mkBand (fr x) (gn x) (qf x)) <$> l))
      (filter_states p ++ replicate (length l) None).
Proof.
  induction l as [|x l IH]; intros p; simpl.
  - rewrite !app_nil_r. by destruct p.
  - rewrite IH. unfold add_band. simpl. by rewrite <- !app_assoc.
Qed.

Lemma foldl_add_band_reachable {A} (fr gn qf : A -> R) l : forall p,
  reachable p ->
  reachable (foldl (fun p x => add_band p (fr x) (gn x) (qf x)) p l).
Proof.
  induction l as [|x l IH]; intros p Hp; simpl; [done|].
  apply IH. by constructor.
Qed.

Lemma foldl_print (line : string * Preset -> string) l : forall self,
  foldl (fun self kv => print (line kv) self) self l
  = mkEqualizer (config self) (eq_sample_rate self) (buffer_size self)
      (processor self) (stdout self ++ (line <$> l)).
Proof.
  induction l as [|kv l IH]; intros self; simpl.
  - rewrite app_nil_r. by destruct self.
  - rewrite IH. unfold print. simpl. by rewrite <- app_assoc.
Qed.

Lemma list_presets_spec self :
  list_presets self
  = mkEqualizer (config self) (eq_sample_rate self) (buffer_size self)
      (processor self)
      (stdout self ++ presets_listing (default [] (cfg_presets (config self)))).
Proof.
  unfold list_presets, presets_listing.
  destruct (default [] (cfg_presets (config self))) as [|kv l] eqn:Hp; [done|].
  rewrite (foldl_print
             (fun kv => "  - " +:+ kv.1 +:+ ": " +:+ description kv.2)).
  unfold print. simpl. by rewrite <- app_assoc.
Qed.

Lemma fmap_zip_bands (bs : list BandConfig) (gs : list R) :
  (fun bg : BandConfig * R =>
     mkBand (cfg_frequency bg.1) bg.2 (default 1 (cfg_q_factor bg.1)))
    <$> zip bs gs
  = zip_with (fun b g => mkBand (cfg_frequency b) g (default 1 (cfg_q_factor b)))
      bs gs.
Proof.
  revert gs. induction bs as [|b bs IH]; intros [|g gs]; simpl; try done.
  by rewrite IH.
Qed.

(** X11. A preset that exists and carries one gain per configured band
    is applied: [apply_preset] returns [True], prints the confirmation,
    and the processor is rebuilt from the configuration alone, with the
    configured frequencies and Q factors (1.0 when absent), the preset's
    gains, and every band Uninitialized; nothing of the bands and filter
    states it had before remains. *)
Theorem apply_preset_applies self preset_name preset :
  dict_get (default [] (cfg_presets (config self))) preset_name = Some preset ->
  length (gains preset) = length (default [] (cfg_bands (config self))) ->
  (apply_preset self preset_name).1 = true /\
  processor (apply_preset self preset_name).2
  = mkProcessor (sample_rate (processor self))
      (zip_with (fun b g => mkBand (cfg_frequency b) g
                              (default 1 (cfg_q_factor b)))
         (default [] (cfg_bands (config self))) (gains preset))
      (replicate (length (default [] (cfg_bands (config self)))) None) /\
  config (apply_preset self preset_name).2 = config self /\
  stdout (apply_preset self preset_name).2
  = stdout self ++
    ["Applied preset: " +:+ preset_name +:+ " - " +:+ description preset].
Proof.
  intros Hget Hlen. unfold apply_preset. rewrite Hget.
  rewrite decide_False by (intros H; by apply H).
  simpl. split; [done|]. split; [|done].
  rewrite (foldl_add_band (fun bg : BandConfig * R => cfg_frequency bg.1)
             (fun bg => bg.2) (fun bg => default 1 (cfg_q_factor bg.1))).
  simpl. rewrite fmap_zip_bands. f_equal.
  rewrite length_zip_with_l_eq by done. done.
Qed.

Lemma apply_preset_applies_witness :
  dict_get (default [] (cfg_presets (config example_equalizer))) "flat"
  = Some (mkPreset "Flat response" [0; 0]) /\
  length (gains (mkPreset "Flat response" [0; 0]))
  = length (default [] (cfg_bands (config example_equalizer))) /\
  (apply_preset example_equalizer "flat").1 = true /\
  stdout (apply_preset example_equalizer "flat").2
  = ["Applied preset: flat - Flat response"].
Proof.
  assert (H1 : dict_get (default [] (cfg_presets (config example_equalizer)))
                 "flat" = Some (mkPreset "Flat response" [0; 0]))
    by reflexivity.
  assert (H2 : length (gains (mkPreset "Flat response" [0; 0]))
               = length (default [] (cfg_bands (config example_equalizer))))
    by reflexivity.
  split; [exact H1|]. split; [exact H2|].
  pose proof (apply_preset_applies example_equalizer "flat" _ H1 H2)
    as (Hr & _ & _ & Hout).
  split; [exact Hr | exact Hout].
Defined.

(** X12. A preset name that the configuration does not have: the call
    returns [False], prints the error and then the list of the presets
    there are (or that there are none), and changes neither the
    processor nor the configuration. *)
Theorem apply_preset_unknown self preset_name :
  dict_get (default [] (cfg_presets (config self))) preset_name = None ->
  (apply_preset self preset_name).1 = false /\
  processor (apply_preset self preset_name).2 = processor self /\
  config (apply_preset self preset_name).2 = config self /\
  stdout (apply_preset self preset_name).2
  = stdout self
    ++ ("Error: Preset '" +:+ preset_name +:+ "' not found.")
       :: presets_listing (default [] (cfg_presets (config self))).
Proof.
  intros Hget. unfold apply_preset. rewrite Hget. rewrite list_presets_spec.
  simpl. by rewrite <- app_assoc.
Qed.

Lemma apply_preset_unknown_witness :
  dict_get (default [] (cfg_presets (config example_equalizer))) "rock" = None /\
  (apply_preset example_equalizer "rock").1 = false /\
  processor (apply_preset example_equalizer "rock").2
  = processor example_equalizer /\
  stdout (apply_preset example_equalizer "rock").2
  = ["Error: Preset 'rock' not found.";
     nl +:+ "Available presets:";
     "  - flat: Flat response";
     "  - short: One gain only"].
Proof.
  assert (H1 : dict_get (default [] (cfg_presets (config example_equalizer)))
                 "rock" = None) by reflexivity.
  split; [exact H1|].
  pose proof (apply_preset_unknown example_equalizer "rock" H1)
    as (Hr & Hp & _ & Hout).
  split; [exact Hr|]. split; [exact Hp | exact Hout].
Defined.

(** X13. A new [SoundEqualizer] has one band per configured band, in the
    order of the configuration, with the configured gain and a Q factor
    of 1.0 where none is given, every band Uninitialized; a missing
    sample rate is 44100, a missing buffer size 1024, a missing band
    list empty. *)
Theorem new_SoundEqualizer_spec config :
  let self := new_SoundEqualizer config in
  eq_sample_rate self = default 44100 (cfg_sample_rate config) /\
  buffer_size self = default 1024%Z (cfg_buffer_size config) /\
  processor self
  = mkProcessor (default 44100 (cfg_sample_rate config))
      ((fun b => mkBand (cfg_frequency b) (cfg_gain_db b)
                   (default 1 (cfg_q_factor b)))
         <$> default [] (cfg_bands config))
      (replicate (length (default [] (cfg_bands config))) None) /\
  stdout self = [].
Proof.
  unfold new_SoundEqualizer, _load_bands_from_config. simpl.
  split; [done|]. split; [done|]. split; [|done].
  by rewrite (foldl_add_band cfg_frequency cfg_gain_db
                (fun b => default 1 (cfg_q_factor b))).
Qed.

(** X14. The equalizer drives its processor through the public methods
    only: the processor of a new equalizer is a reachable processor
    state, and [apply_preset], [list_presets] and [audio_callback] (also
    when they fail) keep it one, so its bands and filter states stay
    aligned. *)
Theorem equalizer_processor_reachable self :
  reachable (processor self) ->
  (forall preset_name, reachable (processor (apply_preset self preset_name).2)) /\
  reachable (processor (list_presets self)) /\
  (forall in_data frame_count time_info status,
     reachable
       (processor (audio_callback self in_data frame_count time_info status).2)) /\
  (forall preset_name,
     length (bands (processor (apply_preset self preset_name).2))
     = length (filter_states (processor (apply_preset self preset_name).2))).
Proof.
  intros Hp.
  assert (Hpreset : forall preset_name,
            reachable (processor (apply_preset self preset_name).2)).
  { intros preset_name. unfold apply_preset.
    destruct (dict_get _ preset_name) as [preset|].
    - case_decide; simpl; [done|].
      apply (foldl_add_band_reachable
               (fun bg : BandConfig * R => cfg_frequency bg.1)
               (fun bg => bg.2) (fun bg => default 1 (cfg_q_factor bg.1))).
      by constructor.
    - by rewrite list_presets_spec. }
  split; [done|]. split; [by rewrite list_presets_spec|].
  split; [|intros; by apply reachable_aligned].
  intros in_data frame_count time_info status. unfold audio_callback.
  set (self' := if decide (status = 0%Z) then self
                else print ("Status: " +:+ pretty status) self).
  assert (Hp' : reachable (processor self')) by (subst self'; by case_decide).
  destruct (frombuffer_int16 in_data) as [audio_data|e]; [|done].
  pose proof (reach_process_block (processor self') (IZR <$> audio_data) Hp')
    as Hstep.
  destruct (process_block _ _) as [[y|e] p]; simpl in *; [|done].
  by destruct (normalize_audio y (-1)).
Qed.

Lemma equalizer_processor_reachable_witness :
  reachable (processor example_equalizer) /\
  reachable (processor (apply_preset example_equalizer "flat").2).
Proof.
  assert (H : reachable (processor example_equalizer))
    by repeat constructor.
  split; [exact H|].
  exact (proj1 (equalizer_processor_reachable example_equalizer H) "flat").
Defined.

(** ** The stream callback *)

Lemma frombuffer_int16_spec : forall in_data,
  if Nat.even (length in_data)
  then exists samples, frombuffer_int16 in_data = Ok samples /\
                       length in_data = (2 * length samples)%nat
  else frombuffer_int16 in_data = Raise ValueError.
Proof.
  fix IH 1. intros [|lo [|hi rest]].
  - exists []. done.
  - done.
  - specialize (IH rest).
    change (Nat.even (length (lo :: hi :: rest))) with (Nat.even (length rest)).
    destruct (Nat.even (length rest)).
    + destruct IH as (samples & Hs & Hlen).
      exists (int16_of_bytes lo hi :: samples). simpl. rewrite Hs.
      split; [done|]. simpl in *. lia.
    + simpl. by rewrite IH.
Qed.

Lemma trunc_small x : Rabs x < 1 -> trunc x = 0%Z.
Proof.
  intros Hx. apply Rabs_def2 in Hx as [Hlt Hgt]. unfold trunc.
  destruct (Rle_dec 0 x) as [Hle|Hneg].
  - symmetry. apply Int_part_spec. simpl. lra.
  - rewrite <- (Int_part_spec (- x) 0); [done|]. simpl. lra.
Qed.

Lemma np_clip_small x : Rabs x < 1 -> np_clip x (-32768) 32767 = x.
Proof.
  intros Hx. apply Rabs_def2 in Hx as [Hlt Hgt]. unfold np_clip.
  rewrite (Rmax_left x) by lra. apply Rmin_right. lra.
Qed.

Lemma minus_one_dB_below_one : Rpower 10 (-1 / 20) < 1.
Proof.
  rewrite <- (Rpower_O 10) by lra. apply Rpower_lt; lra.
Qed.

Lemma normalize_audio_bound audio_data target_level out :
  normalize_audio audio_data target_level = Ok out ->
  length out = length audio_data /\
  forall v, v ∈ out -> Rabs v <= Rpower 10 (target_level / 20).
Proof.
  intros Hnorm.
  assert (Hne : audio_data ≠ []) by (intros ->; discriminate Hnorm).
  destruct (np_max_abs_spec audio_data Hne) as (peak & Hpeak & H0 & Hge & _).
  assert (HT : 0 < Rpower 10 (target_level / 20)) by apply exp_pos.
  unfold normalize_audio in Hnorm. rewrite Hpeak in Hnorm. simpl in Hnorm.
  destruct (decide (peak = 0)) as [->|Hnz]; injection Hnorm as <-.
  - split; [done|]. intros v Hv. specialize (Hge v Hv). lra.
  - set (scale := Rpower 10 (target_level / 20) / peak).
    assert (Hscale : 0 < scale) by (apply Rdiv_lt_0_compat; lra).
    assert (HpT : peak * scale = Rpower 10 (target_level / 20))
      by (subst scale; field; done).
    split; [by rewrite length_fmap|].
    intros v Hv. apply list_elem_of_fmap in Hv as (x & -> & Hx).
    rewrite Rabs_mult, (Rabs_pos_eq scale), <- HpT by lra.
    apply Rmult_le_compat_r; [lra | by apply Hge].
Qed.

Lemma tobytes_int16_zeros n :
  tobytes_int16 (replicate n 0%Z) = replicate (2 * n) Byte.x00.
Proof.
  induction n as [|n IH]; [done|].
  replace (2 * S n)%nat with (S (S (2 * n))) by lia.
  unfold tobytes_int16 in *. simpl replicate. rewrite bind_cons, IH.
  reflexivity.
Qed.

(** A block normalized to -1 dB of 1.0 lies below one step of a 16-bit
    sample, so its conversion to [int16] is all zeros. *)
Lemma normalized_block_truncates processed out :
  normalize_audio processed (-1) = Ok out ->
  tobytes_int16 ((fun x => trunc (np_clip x (-32768) 32767)) <$> out)
  = replicate (2 * length processed) Byte.x00.
Proof.
  intros Hnorm. apply normalize_audio_bound in Hnorm as [Hlo Hb].
  rewrite (const_fmap _ out 0%Z).
  - by rewrite tobytes_int16_zeros, Hlo.
  - intros i v Hv.
    assert (Rabs v < 1).
    { eapply Rle_lt_trans; [apply Hb; by eapply list_elem_of_lookup_2|].
      apply minus_one_dB_below_one. }
    by rewrite np_clip_small, trunc_small.
Qed.

Lemma process_block_length p x y p' :
  process_block p x = (Ok y, p') -> length y = length x.
Proof.
  rewrite process_block_chain_run. case_decide; [by intros [= <- _]|].
  destruct (chain_run _ _ _ _) as [r sts] eqn:Hrun. intros [= -> _].
  by eapply chain_run_length_out.
Qed.

(** What the callback hands back, if anything, is silence. *)
Lemma audio_callback_ok_inv self in_data frame_count time_info status r self' :
  audio_callback self in_data frame_count time_info status = (Ok r, self') ->
  r = (replicate (length in_data) Byte.x00, paContinue).
Proof.
  unfold audio_callback.
  pose proof (frombuffer_int16_spec in_data) as Hbuf.
  destruct (frombuffer_int16 in_data) as [audio_data|e] eqn:Hfrom; [|done].
  destruct (Nat.even (length in_data)); [|done].
  destruct Hbuf as (samples & [= <-] & Hlen).
  destruct (process_block _ _) as [[y|e] p] eqn:Hblock; [|done].
  apply process_block_length in Hblock. rewrite length_fmap in Hblock.
  destruct (normalize_audio y (-1)) as [out|e] eqn:Hnorm; [|done].
  intros [= <- _]. rewrite (normalized_block_truncates y out Hnorm).
  do 2 f_equal. lia.
Qed.

Lemma example_equalizer_valid :
  0 < sample_rate (processor example_equalizer) /\
  Forall (valid_band (sample_rate (processor example_equalizer)))
    (bands (processor example_equalizer)) /\
  length (bands (processor example_equalizer))
  = length (filter_states (processor example_equalizer)).
Proof.
  simpl. split; [lra|]. split; [|done].
  repeat constructor; simpl; lra.
Qed.

(** X15. The stream callback on a buffer of whole 16-bit samples, at
    least one, with a chain inside the domain: it returns, asks the
    stream to continue, and the buffer it returns has the length of the
    input and is silent, every byte zero, whatever the input and the
    gains are. (The block is normalized to a peak of -1 dB relative to
    1.0, which is less than one step of a 16-bit sample, and the
    conversion to [int16] truncates.) The filter states advance as for
    [process_block] on the samples. *)
Theorem audio_callback_returns_silence self in_data frame_count time_info status :
  0 < sample_rate (processor self) ->
  Forall (valid_band (sample_rate (processor self))) (bands (processor self)) ->
  length (bands (processor self)) = length (filter_states (processor self)) ->
  in_data ≠ [] ->
  Nat.even (length in_data) = true ->
  exists audio_data self',
    frombuffer_int16 in_data = Ok audio_data /\
    audio_callback self in_data frame_count time_info status
    = (Ok (replicate (length in_data) Byte.x00, paContinue), self') /\
    processor self'
    = (process_block (processor self) (IZR <$> audio_data)).2 /\
    config self' = config self /\
    stdout self'
    = stdout self ++
      (if decide (status = 0%Z) then [] else ["Status: " +:+ pretty status]).
Proof.
  intros Hsr Hval Hlen Hne Heven.
  pose proof (frombuffer_int16_spec in_data) as Hbuf. rewrite Heven in Hbuf.
  destruct Hbuf as (audio_data & Hfrom & Hl).
  assert (Hx : IZR <$> audio_data ≠ []).
  { destruct audio_data; [|done]. destruct in_data; [done|]. simpl in Hl. lia. }
  destruct (process_block_returns (processor self) (IZR <$> audio_data)
              Hsr Hval Hlen (or_introl Hx)) as (y & p' & Hblock & Hy).
  assert (Hyne : y ≠ []).
  { intros ->. destruct (IZR <$> audio_data); [done|]. simpl in Hy. lia. }
  destruct (np_max_abs_spec y Hyne) as (peak & Hpeak & _).
  assert (Hnorm : exists out, normalize_audio y (-1) = Ok out).
  { unfold normalize_audio. rewrite Hpeak. simpl. case_decide; eauto. }
  destruct Hnorm as [out Hnorm].
  set (self0 := if decide (status = 0%Z) then self
                else print ("Status: " +:+ pretty status) self).
  assert (Hp0 : processor self0 = processor self) by (subst self0; by case_decide).
  assert (Hcall : audio_callback self in_data frame_count time_info status
                  = (Ok (tobytes_int16
                           ((fun x => trunc (np_clip x (-32768) 32767)) <$> out),
                         paContinue), set_processor p' self0)).
  { unfold audio_callback. fold self0. rewrite Hfrom, Hp0, Hblock.
    by rewrite Hnorm. }
  exists audio_data, (set_processor p' self0).
  split; [done|]. split; [|split; [|split]].
  - rewrite Hcall. do 2 f_equal.
    exact (audio_callback_ok_inv _ _ _ _ _ _ _ Hcall).
  - by rewrite Hblock.
  - subst self0. by case_decide.
  - subst self0. case_decide; simpl; [by rewrite app_nil_r|done].
Qed.

Lemma audio_callback_returns_silence_witness :
  exists self',
    audio_callback example_equalizer [Byte.xe8; Byte.x03; Byte.x18; Byte.xfc]
      2%Z () 0%Z
    = (Ok (replicate 4 Byte.x00, paContinue), self').
Proof.
  destruct example_equalizer_valid as (H1 & H2 & H3).
  destruct (audio_callback_returns_silence example_equalizer
              [Byte.xe8; Byte.x03; Byte.x18; Byte.xfc] 2%Z () 0%Z
              H1 H2 H3 ltac:(discriminate) eq_refl)
    as (audio_data & self' & _ & Hcall & _).
  exists self'. exact Hcall.
Defined.

(** X16. A buffer with an odd number of bytes is rejected with
    [ValueError] by the conversion to samples, before the processor is
    touched: bands and filter states stay as they were. *)
Theorem audio_callback_odd_buffer self in_data frame_count time_info status :
  Nat.even (length in_data) = false ->
  (audio_callback self in_data frame_count time_info status).1
  = Raise ValueError /\
  processor (audio_callback self in_data frame_count time_info status).2
  = processor self /\
  config (audio_callback self in_data frame_count time_info status).2
  = config self.
Proof.
  intros Hodd. pose proof (frombuffer_int16_spec in_data) as Hbuf.
  rewrite Hodd in Hbuf. unfold audio_callback. rewrite Hbuf. simpl.
  split; [done|]. split; by case_decide.
Qed.

Lemma audio_callback_odd_buffer_witness :
  Nat.even (length [Byte.x01; Byte.x02; Byte.x03]) = false /\
  (audio_callback example_equalizer [Byte.x01; Byte.x02; Byte.x03]
     1%Z () 0%Z).1 = Raise ValueError.
Proof.
  split; [reflexivity|].
  exact (proj1 (audio_callback_odd_buffer example_equalizer
                  [Byte.x01; Byte.x02; Byte.x03] 1%Z () 0%Z eq_refl)).
Defined.

(** X17. The callback never returns on an empty buffer: with any bands
    and any filter states it raises. When the chain is aligned with
    every band Active, in particular when it has no bands, the
    exception is the [ValueError] of the peak search in
    [normalize_audio]; and when the chain has no bands the processor is
    left as it was. *)
Theorem audio_callback_empty_buffer self frame_count time_info status :
  exists e,
    (audio_callback self [] frame_count time_info status).1 = Raise e /\
    (length (bands (processor self)) = length (filter_states (processor self)) ->
     Forall is_Some (filter_states (processor self)) ->
     e = ValueError) /\
    (bands (processor self) = [] ->
     processor (audio_callback self [] frame_count time_info status).2
     = processor self).
Proof.
  unfold audio_callback.
  set (self0 := if decide (status = 0%Z) then self
                else print ("Status: " +:+ pretty status) self).
  assert (Hp0 : processor self0 = processor self) by (subst self0; by case_decide).
  simpl. rewrite Hp0.
  destruct (process_block (processor self) []) as [[y|e] p'] eqn:Hblock.
  - pose proof (process_block_length _ _ _ _ Hblock) as Hy.
    destruct y; [|done]. exists ValueError. simpl. split; [done|].
    split; [done|]. intros Hnil.
    rewrite process_block_no_bands in Hblock by (by rewrite Hnil).
    by injection Hblock as <-.
  - exists e. simpl. split; [done|]. split.
    + intros Hlen Hact.
      by rewrite (process_block_empty_active _ Hlen Hact) in Hblock.
    + intros Hnil.
      by rewrite process_block_no_bands in Hblock by (by rewrite Hnil).
Qed.

Lemma audio_callback_empty_buffer_witness :
  exists e,
    (audio_callback (new_SoundEqualizer (mkConfig None None None None)) []
       0%Z () 0%Z).1 = Raise e /\
    e = ValueError /\
    processor (audio_callback (new_SoundEqualizer (mkConfig None None None None))
                 [] 0%Z () 0%Z).2
    = processor (new_SoundEqualizer (mkConfig None None None None)).
Proof.
  destruct (audio_callback_empty_buffer
              (new_SoundEqualizer (mkConfig None None None None)) 0%Z () 0%Z)
    as (e & He & Hval & Hkeep).
  exists e. split; [exact He|].
  split; [exact (Hval eq_refl (Forall_nil_2 _)) | exact (Hkeep eq_refl)].
Defined.

(** * Properties of the window *)

Lemma trunc_bounds x :
  (0 <= x -> 0 <= IZR (trunc x) <= x /\ x < IZR (trunc x) + 1) /\
  (x <= 0 -> x <= IZR (trunc x) <= 0 /\ IZR (trunc x) - 1 < x).
Proof.
  unfold trunc. destruct (Rle_dec 0 x) as [Hle|Hneg].
  - destruct (base_Int_part x) as [H1 H2].
    assert (0 <= IZR (Int_part x)).
    { apply IZR_le. apply Z.lt_succ_r. apply lt_IZR.
      rewrite succ_IZR. lra. }
    split; intros Hx; [lra|].
    assert (x = 0) as -> by lra. lra.
  - destruct (base_Int_part (- x)) as [H1 H2].
    assert (0 <= IZR (Int_part (- x))).
    { apply IZR_le. apply Z.lt_succ_r. apply lt_IZR.
      rewrite succ_IZR. lra. }
    rewrite opp_IZR. split; intros Hx; lra.
Qed.

Lemma trunc_IZR k : trunc (IZR k) = k.
Proof.
  unfold trunc. destruct (Rle_dec 0 (IZR k)).
  - symmetry. apply Int_part_spec. lra.
  - rewrite <- opp_IZR. rewrite <- (Int_part_spec (IZR (- k)) (- k)); [lia|lra].
Qed.

Lemma trunc_fits x :
  -2147483648 <= x <= 2147483647 ->
  c_int (trunc x) = Some (trunc x).
Proof.
  intros Hx. unfold c_int. apply decide_True.
  destruct (trunc_bounds x) as [Hpos Hneg].
  destruct (Rle_dec 0 x) as [H0|H0].
  - destruct (Hpos H0) as [[Ha Hb] _].
    split; [apply le_IZR; lra | apply le_IZR; lra].
  - destruct (Hneg ltac:(lra)) as [[Ha Hb] _].
    split; [apply le_IZR; lra | apply le_IZR; lra].
Qed.

Lemma slider_setValue_range v : (-120 <= slider_setValue v <= 120)%Z.
Proof. unfold slider_setValue. lia. Qed.

Lemma slider_setValue_id v : (-120 <= v <= 120)%Z -> slider_setValue v = v.
Proof. unfold slider_setValue. lia. Qed.

Lemma set_gain_fits gain_db c :
  gain_fits gain_db ->
  set_gain gain_db c
  = Some (mkControl (band_index c) (control_frequency c)
            (slider_setValue (trunc (gain_db * 10)))).
Proof. intros Hfit. unfold set_gain. by rewrite trunc_fits. Qed.

Lemma trunc_tenths_range g :
  -12 <= g <= 12 -> (-120 <= trunc (g * 10) <= 120)%Z.
Proof.
  intros Hg. destruct (trunc_bounds (g * 10)) as [Hpos Hneg].
  destruct (Rle_dec 0 g) as [H0|H0].
  - destruct (Hpos ltac:(lra)) as [[Ha Hb] _].
    split; apply le_IZR; lra.
  - destruct (Hneg ltac:(lra)) as [[Ha Hb] _].
    split; apply le_IZR; lra.
Qed.

(** X18. A band control holds its gain in tenths of a dB between -12
    and +12: [set_gain] followed by [get_gain] gives a gain in that
    range whatever was set; inside the range it gives the gain cut
    towards zero to a tenth (so never larger in size, and less than
    0.1 dB away), gives a whole number of tenths back exactly, and
    outside the range the nearest end. Setting a control to the gain it
    reads changes nothing. *)
Theorem band_control_gain c gain_db :
  gain_fits gain_db ->
  exists c',
    set_gain gain_db c = Some c' /\
    band_index c' = band_index c /\
    control_frequency c' = control_frequency c /\
    -12 <= get_gain c' <= 12 /\
    (-12 <= gain_db <= 12 ->
     Rabs (get_gain c') <= Rabs gain_db /\
     Rabs (gain_db - get_gain c') < 1 / 10) /\
    (forall k, (-120 <= k <= 120)%Z -> gain_db = IZR k / 10 ->
               get_gain c' = gain_db) /\
    (12 <= gain_db -> get_gain c' = 12) /\
    (gain_db <= -12 -> get_gain c' = -12) /\
    ((-120 <= slider c <= 120)%Z -> set_gain (get_gain c) c = Some c).
Proof.
  intros Hfit. rewrite (set_gain_fits _ _ Hfit). eexists. split; [done|].
  unfold get_gain. simpl. split; [done|]. split; [done|].
  pose proof (slider_setValue_range (trunc (gain_db * 10))) as [Hlo Hhi].
  apply IZR_le in Hlo, Hhi.
  destruct (trunc_bounds (gain_db * 10)) as [Hpos Hneg].
  split; [lra|]. split; [|split; [|split; [|split]]].
  - intros Hg. rewrite slider_setValue_id by by apply trunc_tenths_range.
    destruct (Rle_dec 0 gain_db) as [H0|H0].
    + destruct (Hpos ltac:(lra)) as [[Ha Hb] Hc].
      rewrite !Rabs_pos_eq by lra. lra.
    + destruct (Hneg ltac:(lra)) as [[Ha Hb] Hc].
      rewrite (Rabs_left1 (_ / 10)), (Rabs_left1 gain_db),
        (Rabs_left1 (gain_db - _)) by lra. lra.
  - intros k Hk ->. replace (IZR k / 10 * 10) with (IZR k) by field.
    by rewrite trunc_IZR, slider_setValue_id.
  - intros Hg. destruct (Hpos ltac:(lra)) as [_ Hc].
    assert (119 < trunc (gain_db * 10))%Z by (apply lt_IZR; lra).
    unfold slider_setValue. rewrite Z.min_l, Z.max_r by lia. lra.
  - intros Hg. destruct (Hneg ltac:(lra)) as [_ Hc].
    assert (trunc (gain_db * 10) < -119)%Z by (apply lt_IZR; lra).
    unfold slider_setValue. rewrite Z.min_r, Z.max_l by lia. lra.
  - intros Hs. unfold set_gain.
    replace (IZR (slider c) / 10 * 10) with (IZR (slider c)) by field.
    rewrite trunc_IZR. unfold c_int. rewrite decide_True by lia. simpl.
    rewrite slider_setValue_id by done. by destruct c.
Qed.

Lemma band_control_gain_witness :
  gain_fits (-3.57) /\
  exists c',
    set_gain (-3.57) (new_EqualizerBandControl 0 100 "Bass") = Some c' /\
    -12 <= get_gain c' <= 12.
Proof.
  assert (H : gain_fits (-3.57)) by (unfold gain_fits; lra).
  split; [exact H|].
  destruct (band_control_gain (new_EqualizerBandControl 0 100 "Bass") _ H)
    as (c' & Hset & _ & _ & Hrange & _).
  exists c'. split; [exact Hset | exact Hrange].
Defined.

Lemma add_current_bands_from controls : forall config_bands k p,
  foldl (fun p (ib : nat * BandConfig) =>
           match controls !! ib.1 with
           | Some control =>
               add_band p (cfg_frequency ib.2) (get_gain control)
                 (default 1 (cfg_q_factor ib.2))
           | None => p
           end)
    p (imap (fun i b => ((k + i)%nat, b)) config_bands)
  = mkProcessor (sample_rate p)
      (bands p ++ settings_bands config_bands (drop k controls))
      (filter_states p
       ++ replicate (length (settings_bands config_bands (drop k controls)))
            None).
Proof.
  induction config_bands as [|b rest IH]; intros k p.
  - simpl. rewrite !app_nil_r. by destruct p.
  - rewrite imap_cons. simpl foldl.
    rewrite (imap_ext _ (fun i b => ((S k + i)%nat, b)) rest)
      by (intros; simpl; f_equal; lia).
    rewrite IH. replace (k + 0)%nat with k by lia.
    destruct (controls !! k) as [c|] eqn:Hc.
    + rewrite (drop_S _ _ _ Hc). simpl.
      rewrite <- !app_assoc. reflexivity.
    + apply lookup_ge_None in Hc.
      rewrite !drop_ge by lia. unfold settings_bands.
      by rewrite !zip_with_nil_r.
Qed.

Lemma add_current_bands_spec config_bands controls p :
  add_current_bands config_bands controls p
  = mkProcessor (sample_rate p)
      (bands p ++ settings_bands config_bands controls)
      (filter_states p
       ++ replicate (length (settings_bands config_bands controls)) None).
Proof.
  unfold add_current_bands.
  rewrite (imap_ext pair (fun i b => ((0 + i)%nat, b)) config_bands) by done.
  by rewrite add_current_bands_from, drop_0.
Qed.

Lemma _apply_current_settings_processor self :
  processor (equalizer (_apply_current_settings self))
  = settings_processor (sample_rate (processor (equalizer self)))
      (gui_bands self) (band_controls self).
Proof.
  unfold _apply_current_settings. simpl. by rewrite add_current_bands_spec.
Qed.

Lemma _update_visualization_spec self :
  exists freqs mag_db phase,
    (get_frequency_response
       (settings_processor (eq_sample_rate (equalizer self))
          (gui_bands self) (band_controls self)) None).1
    = Ok (freqs, mag_db, phase) /\
    _update_visualization self = Some (update_plot freqs mag_db self).
Proof.
  unfold _update_visualization.
  assert (Hp : add_current_bands (gui_bands self) (band_controls self)
                 (new_AudioProcessor (eq_sample_rate (equalizer self)))
               = settings_processor (eq_sample_rate (equalizer self))
                   (gui_bands self) (band_controls self))
    by (rewrite add_current_bands_spec; reflexivity).
  rewrite Hp. set (p := settings_processor _ _ _).
  destruct (response_grid_ok (sample_rate p) None) as [freqs Hgrid].
  rewrite (get_frequency_response_total p None freqs Hgrid).
  cbn [fst]. eauto.
Qed.

Opaque get_frequency_response.

Lemma dict_get_elem_of {V} (d : list (string * V)) k v :
  dict_get d k = Some v -> (k, v) ∈ d.
Proof.
  unfold dict_get. induction d as [|[k' v'] d IH]; simpl; [done|].
  case_bool_decide as Hk; simpl in *.
  - intros [= ->]. subst. by left.
  - intros Hfind. right. by apply IH.
Qed.

Lemma dict_get_is_Some {V} (d : list (string * V)) k v :
  (k, v) ∈ d -> is_Some (dict_get d k).
Proof.
  unfold dict_get. induction d as [|[k' v'] d IH]; simpl.
  - by intros ?%elem_of_nil.
  - intros Hin. case_bool_decide as Hk; simpl in *; [by eexists|].
    apply elem_of_cons in Hin as [[= ? ?]|Hin]; [done|by apply IH].
Qed.

Lemma settings_bands_length config_bands controls :
  length controls = length config_bands ->
  length (settings_bands config_bands controls) = length controls.
Proof. intros Hlen. unfold settings_bands. rewrite length_zip_with. lia. Qed.

(** Changing the gain of band [i] in place is what moving slider [i]
    stands for. *)
Lemma settings_bands_alter gain_db : forall config_bands controls i c c',
  controls !! i = Some c -> get_gain c' = gain_db ->
  alter (fun b => mkBand (frequency b) gain_db (q_factor b)) i
    (settings_bands config_bands controls)
  = settings_bands config_bands (<[i := c']> controls).
Proof.
  unfold settings_bands.
  induction config_bands as [|b rest IH]; intros [|c0 controls] i c c' Hc Hg;
    try done.
  destruct i as [|i]; simpl in *.
  - by rewrite Hg.
  - f_equal. by eapply IH.
Qed.

Lemma set_gains_spec : forall gs i controls,
  Forall gain_fits gs ->
  exists controls',
    set_gains i gs controls = Some controls' /\
    length controls' = length controls /\
    forall j c, controls !! j = Some c ->
      controls' !! j
      = Some (if decide (i <= j)%nat then
                match gs !! (j - i)%nat with
                | Some g =>
                    mkControl (band_index c) (control_frequency c)
                      (slider_setValue (trunc (g * 10)))
                | None => c
                end
              else c).
Proof.
  induction gs as [|g rest IH]; intros i controls Hfit.
  - exists controls. split; [done|]. split; [done|].
    intros j c Hc. rewrite lookup_nil. by case_decide.
  - inversion Hfit as [|? ? Hg Hrest]; subst. simpl.
    destruct (controls !! i) as [ci|] eqn:Hi.
    + rewrite (set_gain_fits _ _ Hg). simpl.
      destruct (IH (S i) (<[i := mkControl (band_index ci)
                                   (control_frequency ci)
                                   (slider_setValue (trunc (g * 10)))]>
                          controls) Hrest)
        as (controls' & Hset & Hlen & Hlook).
      exists controls'. split; [done|].
      rewrite length_insert in Hlen. split; [done|].
      intros j c Hc. destruct (decide (j = i)) as [->|Hne].
      * rewrite (Hlook i _ (list_lookup_insert_eq _ _ _
                              (lookup_lt_Some _ _ _ Hi))).
        rewrite decide_False, decide_True by lia.
        replace (i - i)%nat with 0%nat by lia. simpl. congruence.
      * rewrite (Hlook j c) by (by rewrite list_lookup_insert_ne).
        destruct (decide (S i <= j)%nat), (decide (i <= j)%nat); try lia;
          [|done].
        replace (j - i)%nat with (S (j - S i)) by lia. done.
    + destruct (IH (S i) controls Hrest) as (controls' & Hset & Hlen & Hlook).
      exists controls'. split; [done|]. split; [done|].
      intros j c Hc. rewrite (Hlook j c Hc).
      pose proof (lookup_lt_Some _ _ _ Hc).
      apply lookup_ge_None in Hi.
      by rewrite !decide_False by lia.
Qed.

Lemma reset_gains controls :
  mapM (set_gain 0) controls
  = Some ((fun c => mkControl (band_index c) (control_frequency c) 0)
            <$> controls).
Proof.
  assert (Hzero : forall c, set_gain 0 c
            = Some (mkControl (band_index c) (control_frequency c) 0)).
  { intros c. unfold set_gain. replace (0 * 10) with (IZR 0) by ring.
    by rewrite trunc_IZR. }
  induction controls as [|c rest IH]; [done|].
  simpl. rewrite Hzero. simpl. by rewrite IH.
Qed.

Lemma new_band_controls : forall config_bands k,
  Forall (fun b => is_Some (cfg_description b)) config_bands ->
  mapM (fun ib : nat * BandConfig =>
          description ← cfg_description ib.2;
          Some (new_EqualizerBandControl ib.1 (cfg_frequency ib.2)
                  description))
    (imap (fun i b => ((k + i)%nat, b)) config_bands)
  = Some (imap (fun i b => mkControl (k + i) (cfg_frequency b) 0)
            config_bands).
Proof.
  induction config_bands as [|b rest IH]; intros k Hdesc; [done|].
  inversion Hdesc as [|? ? [d Hd] Hrest]; subst.
  rewrite !imap_cons. simpl. rewrite Hd. simpl.
  rewrite (imap_ext _ (fun i b => ((S k + i)%nat, b)) rest)
    by (intros; simpl; f_equal; lia).
  rewrite (IH (S k) Hrest). simpl. do 2 f_equal.
  apply imap_ext. intros; simpl; f_equal; lia.
Qed.

Lemma sync_after_apply self :
  length (band_controls self) = length (gui_bands self) ->
  (forall i c, band_controls self !! i = Some c ->
               band_index c = i /\ (-120 <= slider c <= 120)%Z) ->
  sample_rate (processor (equalizer self)) = eq_sample_rate (equalizer self) ->
  gui_sync (if enabled self then _apply_current_settings self else self).
Proof.
  intros Hlen Hctl Hsr. destruct (enabled self) eqn:Hen.
  - split; [done|]. split; [done|].
    pose proof (_apply_current_settings_processor self) as Hp.
    simpl in *. rewrite Hp, Hsr. done.
  - split; [done|]. split; [done|]. split; [done|].
    rewrite Hen. done.
Qed.

Lemma _update_visualization_inv self :
  gui_sync self ->
  exists self',
    _update_visualization self = Some self' /\
    (forall message, gui_inv (_update_status_message message self')) /\
    gui_inv self' /\
    gui_presets self' = gui_presets self /\
    gui_bands self' = gui_bands self /\
    enabled self' = enabled self /\
    equalizer self' = equalizer self /\
    band_controls self' = band_controls self.
Proof.
  intros Hsync.
  destruct (_update_visualization_spec self)
    as (freqs & mag_db & phase & Hresp & Hviz).
  exists (update_plot freqs mag_db self). split; [done|].
  split; [intros message|split; [|done]];
    (split; [exact Hsync | by exists freqs, mag_db, phase]).
Qed.

Lemma itemData_preset self index preset_name :
  itemData self index = Some preset_name ->
  exists preset,
    dict_get (gui_presets self) preset_name = Some preset /\
    (preset_name, preset) ∈ gui_presets self.
Proof.
  unfold itemData. case_decide; [|done].
  destruct (gui_presets self !! _) as [[k v]|] eqn:Hk; [|done].
  intros [= <-]. apply list_elem_of_lookup_2 in Hk.
  destruct (dict_get_is_Some _ _ _ Hk) as [preset Hget].
  exists preset. split; [done|]. by apply dict_get_elem_of.
Qed.

Lemma gui_step_inv self ev :
  gui_inv self ->
  Forall (fun kv : string * Preset => Forall gain_fits (gains kv.2))
    (gui_presets self) ->
  exists self',
    gui_step self ev = Some self' /\
    gui_inv self' /\
    gui_presets self' = gui_presets self /\
    gui_bands self' = gui_bands self.
Proof.
  intros [Hsync Hplot] Hfit.
  pose proof Hsync as (Hlen & Hctl & Hsr & Hen).
  destruct ev as [state|i value|index| |]; simpl.
  - (* the check box *)
    unfold _on_enable_changed.
    pose proof (sync_after_apply
                  (set_enabled (bool_decide (state = Qt_Checked)) self)
                  Hlen Hctl Hsr) as Hs.
    destruct (enabled (set_enabled _ self));
      (eexists; split; [done|]; split; [|done]);
      (split; [exact Hs | exact Hplot]).
  - (* a slider *)
    unfold slider_moved. destruct (band_controls self !! i) as [c|] eqn:Hc.
    2:{ exists self. done. }
    case_decide as Hv; [by exists self|].
    unfold _on_slider_changed, _on_band_changed. cbn [band_index].
    set (v := slider_setValue value) in *.
    set (c' := mkControl (band_index c) (control_frequency c) v).
    set (self1 := set_band_controls (<[i := c']> (band_controls self)) self).
    destruct (Hctl i c Hc) as [Hidx Hrange].
    pose proof (lookup_lt_Some _ _ _ Hc) as Hi.
    match goal with
    | |- exists s, _update_visualization ?s2 = _ /\ _ =>
        assert (Hsync2 : gui_sync s2 /\ gui_presets s2 = gui_presets self
                         /\ gui_bands s2 = gui_bands self)
    end.
    { assert (Hctl' : forall j cj, <[i := c']> (band_controls self) !! j = Some cj ->
                band_index cj = j /\ (-120 <= slider cj <= 120)%Z).
      { intros j cj Hj. destruct (decide (j = i)) as [->|Hne].
        - rewrite list_lookup_insert_eq in Hj by done. injection Hj as <-.
          split; [done|]. apply slider_setValue_range.
        - rewrite list_lookup_insert_ne in Hj by done. by apply Hctl. }
      destruct (enabled self1) eqn:He.
      - specialize (Hen He). rewrite Hidx.
        assert (Hb : bands (processor (equalizer self1))
                     = settings_bands (gui_bands self) (band_controls self))
          by (simpl; by rewrite Hen).
        rewrite decide_True
          by (rewrite Hb, settings_bands_length by done; done).
        split; [|done]. split; [by simpl; rewrite length_insert|].
        split; [exact Hctl'|]. split; [exact Hsr|]. intros _. simpl.
        rewrite Hen at 2 3. simpl. rewrite Hsr.
        rewrite (settings_bands_alter _ _ _ _ c c' Hc)
          by (unfold get_gain; done).
        unfold settings_processor. f_equal.
        rewrite !settings_bands_length
          by (rewrite ?length_insert; done).
        by rewrite length_insert.
      - split; [|done]. split; [by simpl; rewrite length_insert|].
        split; [exact Hctl'|]. split; [exact Hsr|].
        intros He'. simpl in He, He'. congruence. }
    destruct Hsync2 as (Hs2 & Hp2 & Hb2).
    destruct (_update_visualization_inv _ Hs2)
      as (self' & Hviz & _ & Hinv & Hp' & Hb' & _).
    exists self'. split; [done|]. split; [done|]. split; congruence.
  - (* the preset selector *)
    unfold _on_preset_changed.
    destruct (itemData self index) as [preset_name|] eqn:Hitem.
    2:{ exists self. done. }
    destruct (itemData_preset _ _ _ Hitem) as (preset & Hget & Hin).
    rewrite Hget. simpl.
    assert (Hg : Forall gain_fits (gains preset)).
    { rewrite Forall_forall in Hfit. exact (Hfit _ Hin). }
    destruct (set_gains_spec (gains preset) 0 (band_controls self) Hg)
      as (controls' & Hset & Hlen' & Hlook).
    rewrite Hset. simpl.
    set (self1 := set_band_controls controls' self).
    assert (Hs2 : gui_sync (if enabled self1 then _apply_current_settings self1
                            else self1)).
    { apply sync_after_apply; simpl; [congruence| |done].
      intros j cj Hj.
      destruct (lookup_lt_is_Some_2 (band_controls self) j) as [c Hc].
      { rewrite <- Hlen'. by eapply lookup_lt_Some. }
      rewrite (Hlook j c Hc) in Hj. injection Hj as <-.
      destruct (Hctl j c Hc) as [Hidx Hrange].
      destruct (gains preset !! _); [|done].
      split; [done|]. apply slider_setValue_range. }
    change (enabled self) with (enabled self1).
    destruct (_update_visualization_inv _ Hs2)
      as (self' & Hviz & Hmsg & _ & Hp' & Hb' & _).
    rewrite Hviz. simpl. eexists. split; [done|]. split; [apply Hmsg|].
    simpl. rewrite Hp', Hb'. by destruct (enabled self1).
  - (* the reset button *)
    unfold _reset_all_bands. rewrite reset_gains. simpl.
    set (self1 := set_band_controls _ self).
    assert (Hs2 : gui_sync (if enabled self1 then _apply_current_settings self1
                            else self1)).
    { apply sync_after_apply; simpl; [by rewrite length_fmap| |done].
      intros j cj Hj. rewrite list_lookup_fmap in Hj.
      destruct (band_controls self !! j) as [c|] eqn:Hc; [|done].
      injection Hj as <-. destruct (Hctl j c Hc). simpl. split; [done|lia]. }
    change (enabled self) with (enabled self1).
    destruct (_update_visualization_inv _ Hs2)
      as (self' & Hviz & Hmsg & _ & Hp' & Hb' & _).
    rewrite Hviz. simpl. eexists. split; [done|]. split; [apply Hmsg|].
    simpl. rewrite Hp', Hb'. by destruct (enabled self1).
  - (* the timer *)
    destruct (_update_visualization_inv _ Hsync)
      as (self' & Hviz & _ & Hinv & Hp' & Hb' & _).
    by exists self'.
Qed.

Lemma gui_run_inv evs : forall self,
  gui_inv self ->
  Forall (fun kv : string * Preset => Forall gain_fits (gains kv.2))
    (gui_presets self) ->
  exists self',
    gui_run self evs = Some self' /\
    gui_inv self' /\
    gui_presets self' = gui_presets self /\
    gui_bands self' = gui_bands self.
Proof.
  induction evs as [|ev evs IH]; intros self Hinv Hfit; [by exists self|].
  destruct (gui_step_inv self ev Hinv Hfit) as (self1 & Hstep & Hinv1 & Hp1 & Hb1).
  simpl. rewrite Hstep. simpl.
  destruct (IH self1 Hinv1) as (self' & Hrun & Hinv' & Hp' & Hb').
  { by rewrite Hp1. }
  exists self'. split; [done|]. split; [done|]. split; congruence.
Qed.

Lemma new_EqualizerGUI_inv config presets config_bands :
  cfg_presets config = Some presets ->
  cfg_bands config = Some config_bands ->
  Forall (fun b => is_Some (cfg_description b)) config_bands ->
  exists gui0,
    new_EqualizerGUI config = Some gui0 /\
    gui_inv gui0 /\
    enabled gui0 = false /\
    gui_presets gui0 = presets /\
    gui_bands gui0 = config_bands /\
    band_controls gui0
    = imap (fun i b => mkControl i (cfg_frequency b) 0) config_bands.
Proof.
  intros Hpresets Hbands Hdesc. unfold new_EqualizerGUI.
  rewrite Hpresets, Hbands. simpl.
  rewrite (imap_ext pair (fun i b => ((0 + i)%nat, b)) config_bands) by done.
  rewrite (new_band_controls config_bands 0 Hdesc). simpl.
  match goal with
  | |- exists g, _update_visualization ?s = _ /\ _ =>
      destruct (_update_visualization_inv s)
        as (gui0 & Hviz & _ & Hinv & Hp & Hb & He & _ & Hc)
  end.
  { split; [simpl; by rewrite length_imap|]. split; [|split; [|done]].
    - intros i c. simpl. rewrite list_lookup_imap.
      destruct (config_bands !! i); [|done]. intros [= <-]. simpl. lia.
    - simpl. unfold _load_bands_from_config. simpl.
      by rewrite (foldl_add_band cfg_frequency cfg_gain_db
                    (fun b => default 1 (cfg_q_factor b))). }
  exists gui0. done.
Qed.

(** X19. The window keeps its parts in step. Built from a configuration
    that has presets, bands and a description for every band, with a
    positive sample rate (or none, which is 44100) and preset gains the
    sliders can take, it starts disabled with every
    slider at 0; and after any sequence of events (the check box, a
    slider moved, a preset chosen, the reset button, the timer) no
    handler has raised, there is one control per configured band, every
    slider is within -120..120 tenths of a dB, the curve on display is
    the frequency response of the chain the sliders stand for, and,
    whenever the equalizer is enabled, its processor is exactly that
    chain, every band Uninitialized. *)
Theorem gui_stays_in_sync config presets config_bands :
  0 < default 44100 (cfg_sample_rate config) ->
  cfg_presets config = Some presets ->
  cfg_bands config = Some config_bands ->
  Forall (fun b => is_Some (cfg_description b)) config_bands ->
  Forall (fun kv : string * Preset => Forall gain_fits (gains kv.2)) presets ->
  exists gui0,
    new_EqualizerGUI config = Some gui0 /\
    enabled gui0 = false /\
    Forall (fun c => slider c = 0%Z) (band_controls gui0) /\
    forall evs, exists gui,
      gui_run gui0 evs = Some gui /\
      gui_bands gui = config_bands /\
      gui_sync gui /\
      gui_plot gui.
Proof.
  intros _ Hpresets Hbands Hdesc Hfit.
  destruct (new_EqualizerGUI_inv config presets config_bands
              Hpresets Hbands Hdesc)
    as (gui0 & Hnew & Hinv & Hen & Hp & Hb & Hc).
  exists gui0. split; [done|]. split; [done|]. split.
  - rewrite Hc. apply Forall_forall. intros c Hin.
    apply list_elem_of_lookup in Hin as [i Hi].
    rewrite list_lookup_imap in Hi.
    destruct (config_bands !! i); [|done]. by injection Hi as <-.
  - intros evs.
    destruct (gui_run_inv evs gui0 Hinv) as (gui & Hrun & [Hs Hpl] & _ & Hb').
    { by rewrite Hp. }
    exists gui. split; [done|]. split; [congruence|done].
Qed.

Lemma gui_stays_in_sync_witness :
  0 < default 44100 (cfg_sample_rate gui_config) /\
  exists gui0,
    new_EqualizerGUI gui_config = Some gui0 /\
    exists gui,
      gui_run gui0 [EnableChanged 2; PresetChanged 2; SliderMoved 0 (-40)]
      = Some gui /\
      gui_sync gui.
Proof.
  assert (Hsr : 0 < default 44100 (cfg_sample_rate gui_config))
    by (simpl; lra).
  split; [exact Hsr|].
  destruct (gui_stays_in_sync gui_config
              [("flat", mkPreset "Flat response" [0; 0]);
               ("loud", mkPreset "Beyond the sliders" [20; -3.57; 1])]
              [mkBandConfig 100 0 (Some 1) (Some "Bass");
               mkBandConfig 1000 0 None (Some "Mid")]
              Hsr eq_refl eq_refl)
    as (gui0 & Hnew & _ & _ & Hrun).
  - repeat constructor; by eexists.
  - repeat constructor; unfold gain_fits; simpl; lra.
  - exists gui0. split; [exact Hnew|].
    destruct (Hrun [EnableChanged 2; PresetChanged 2; SliderMoved 0 (-40)])
      as (gui & Hg & _ & Hs & _).
    exists gui. split; [exact Hg | exact Hs].
Defined.

(** X20. Choosing a preset in the window moves the sliders it has gains
    for and leaves the others: there is no comparison of the number of
    gains with the number of bands, so a preset that [apply_preset]
    rejects is applied in part here, and each gain is cut to a whole
    number of tenths inside the range of the slider. The processor
    follows the sliders when the equalizer is enabled and is left alone
    when it is not. *)
Theorem gui_preset_moves_sliders self index preset_name preset :
  itemData self index = Some preset_name ->
  dict_get (gui_presets self) preset_name = Some preset ->
  Forall gain_fits (gains preset) ->
  exists self',
    _on_preset_changed self index = Some self' /\
    length (band_controls self') = length (band_controls self) /\
    (forall i c, band_controls self !! i = Some c ->
       band_controls self' !! i
       = Some match gains preset !! i with
              | Some g =>
                  mkControl (band_index c) (control_frequency c)
                    (slider_setValue (trunc (g * 10)))
              | None => c
              end) /\
    status_message self' = "Applied preset: " +:+ preset_name /\
    (enabled self = true ->
     processor (equalizer self')
     = settings_processor (sample_rate (processor (equalizer self)))
         (gui_bands self) (band_controls self')) /\
    (enabled self = false -> equalizer self' = equalizer self).
Proof.
  intros Hitem Hget Hfit. unfold _on_preset_changed.
  rewrite Hitem, Hget. simpl.
  destruct (set_gains_spec (gains preset) 0 (band_controls self) Hfit)
    as (controls' & Hset & Hlen & Hlook).
  rewrite Hset. simpl.
  set (self1 := set_band_controls controls' self).
  set (self2 := if enabled self then _apply_current_settings self1 else self1).
  destruct (_update_visualization_spec self2)
    as (freqs & mag_db & phase & _ & Hviz).
  rewrite Hviz. simpl. eexists. split; [done|].
  assert (Hc2 : band_controls self2 = controls')
    by (subst self2; by destruct (enabled self)).
  simpl. rewrite Hc2. split; [done|]. split; [|split; [done|split]].
  - intros i c Hc. rewrite (Hlook i c Hc).
    by replace (i - 0)%nat with i by lia.
  - intros He. subst self2. rewrite He.
    apply (_apply_current_settings_processor self1).
  - intros He. subst self2. by rewrite He.
Qed.

Lemma gui_preset_moves_sliders_witness :
  exists self',
    _on_preset_changed
      (mkGUI [mkBandConfig 100 0 (Some 1) (Some "Bass");
              mkBandConfig 1000 0 None (Some "Mid")]
         [("one", mkPreset "One gain" [20])]
         example_equalizer false
         [mkControl 0 100 0; mkControl 1 1000 35] None "") 1
    = Some self' /\
    band_controls self' !! 1%nat = Some (mkControl 1 1000 35).
Proof.
  destruct (gui_preset_moves_sliders
              (mkGUI [mkBandConfig 100 0 (Some 1) (Some "Bass");
                      mkBandConfig 1000 0 None (Some "Mid")]
                 [("one", mkPreset "One gain" [20])]
                 example_equalizer false
                 [mkControl 0 100 0; mkControl 1 1000 35] None "") 1
              "one" (mkPreset "One gain" [20]) eq_refl eq_refl)
    as (self' & Hcall & _ & Hlook & _).
  - repeat constructor; unfold gain_fits; simpl; lra.
  - exists self'. split; [exact Hcall|].
    exact (Hlook 1%nat (mkControl 1 1000 35) eq_refl).
Defined.

(** X21. [_apply_current_settings] rebuilds the processor from the
    sliders alone: whatever bands and filter states it had, it ends
    with one band per configured band that has a control, carrying the
    configured frequency and Q factor (1.0 when absent) and the gain of
    the slider, every band Uninitialized. The result is a reachable
    processor state, the call is idempotent, and the controls, the
    sample rate and the enabled flag are not touched. *)
Theorem apply_current_settings_rebuilds self :
  processor (equalizer (_apply_current_settings self))
  = settings_processor (sample_rate (processor (equalizer self)))
      (gui_bands self) (band_controls self) /\
  length (bands (processor (equalizer (_apply_current_settings self))))
  = Nat.min (length (gui_bands self)) (length (band_controls self)) /\
  reachable (processor (equalizer (_apply_current_settings self))) /\
  _apply_current_settings (_apply_current_settings self)
  = _apply_current_settings self /\
  band_controls (_apply_current_settings self) = band_controls self /\
  enabled (_apply_current_settings self) = enabled self.
Proof.
  pose proof (_apply_current_settings_processor self) as Hp.
  split; [exact Hp|]. split; [|split; [|split; [|done]]].
  - rewrite Hp. simpl. unfold settings_bands. by rewrite length_zip_with.
  - rewrite Hp. unfold settings_processor, settings_bands.
    generalize (sample_rate (processor (equalizer self))). intros sr.
    generalize (band_controls self). 
    assert (Hgen : forall config_bands controls p,
              reachable p ->
              reachable
                (mkProcessor (sample_rate p)
                   (bands p ++ settings_bands config_bands controls)
                   (filter_states p
                    ++ replicate
                         (length (settings_bands config_bands controls))
                         None))).
    { unfold settings_bands.
      induction config_bands as [|b rest IH]; intros [|c cs] p Hr;
        simpl; rewrite ?app_nil_r; try (by destruct p).
      specialize (IH cs (add_band p (cfg_frequency b) (get_gain c)
                           (default 1 (cfg_q_factor b)))
                    (reach_add_band _ _ _ _ Hr)).
      simpl in IH. by rewrite <- !app_assoc in IH. }
    intros controls.
    exact (Hgen (gui_bands self) controls (new_AudioProcessor sr)
             (reach_new sr)).
  - unfold _apply_current_settings. simpl.
    rewrite !add_current_bands_spec. reflexivity.
Qed.

(** ** The default configuration *)

(** X22. With the configuration [_default_config] falls back to, the
    equalizer has no bands: every block passes [process_block]
    unchanged and leaves the processor as it was, and no preset can be
    applied, whatever its name: the call returns [False] and prints the
    error followed by the note that there are no presets. *)
Theorem default_config_equalizer :
  let self := new_SoundEqualizer _default_config in
  bands (processor self) = [] /\
  eq_sample_rate self = 44100 /\
  buffer_size self = 1024%Z /\
  (forall x, process_block (processor self) x = (Ok x, processor self)) /\
  (forall preset_name,
     (apply_preset self preset_name).1 = false /\
     processor (apply_preset self preset_name).2 = processor self /\
     stdout (apply_preset self preset_name).2
     = ["Error: Preset '" +:+ preset_name +:+ "' not found.";
        "No presets available."]).
Proof.
  simpl. split; [done|]. split; [done|]. split; [done|]. split; [done|].
  intros preset_name. done.
Qed.
